(** * Access group classification: equivalence classes of users

    A shallow embedding of [equivalence_access_control.py] and the
    properties of its grouping, permission, session and export code.

    Conventions of the embedding.
    - A Python [str] is a [string]; a character is a code point in
      0..255 (Latin-1), which is the range [ascii] offers.  [str.strip]
      and [str.lower] are given for that range.
    - A Python [dict] is an association list in insertion order (Python
      dictionaries iterate in insertion order, and the grouping code
      depends on it).
    - A [User] object carries its identity [oid]: the class defines no
      [__eq__], so [u in members] compares identities.
    - [input] reads from the pending lines of the console, object creation
      draws a fresh identity, and the export opens a file, which can fail,
      and writes it: these three make up the [World] threaded through the
      interactive code.  [print] only writes to the console and is left
      out. *)

From Stdlib Require Import String Ascii ZArith Bool Arith Lia.
From Stdlib Require Import List Permutation.
Import ListNotations.
Open Scope string_scope.
Open Scope list_scope.

(** ** Python strings *)

Module PyStr.

(** [str.isspace] on one code point below 256. *)
Definition isspace (c : ascii) : bool :=
  let n := nat_of_ascii c in
  (((9 <=? n) && (n <=? 13)) || ((28 <=? n) && (n <=? 32))
   || (n =? 133) || (n =? 160))%nat.

Fixpoint lstrip (s : string) : string :=
  match s with
  | EmptyString => EmptyString
  | String c s' => if isspace c then lstrip s' else s
  end.

Fixpoint rstrip (s : string) : string :=
  match s with
  | EmptyString => EmptyString
  | String c s' =>
      match rstrip s' with
      | EmptyString => if isspace c then EmptyString else String c EmptyString
      | r => String c r
      end
  end.

(** [s.strip()] *)
Definition strip (s : string) : string := rstrip (lstrip s).

Definition lower_char (c : ascii) : ascii :=
  let n := nat_of_ascii c in
  if (((65 <=? n) && (n <=? 90))
      || ((192 <=? n) && (n <=? 214))
      || ((216 <=? n) && (n <=? 222)))%nat
  then ascii_of_nat (n + 32) else c.

(** [s.lower()] *)
Fixpoint lower (s : string) : string :=
  match s with
  | EmptyString => EmptyString
  | String c s' => String (lower_char c) (lower s')
  end.

(** Truth value of a string: the empty string is false. *)
Definition truthy (s : string) : bool :=
  match s with EmptyString => false | _ => true end.

(** [s or default] *)
Definition or_else (s default : string) : string :=
  if truthy s then s else default.

(** [s in (t1, ..., tn)] for a tuple of strings. *)
Definition in_tuple (s : string) (t : list string) : bool :=
  existsb (String.eqb s) t.

End PyStr.

(** ** Python dictionaries, in insertion order *)

(** What a key type gives the dictionary: its [==]. *)
Class PyKey (K : Type) := { key_eqb : K -> K -> bool }.

(** The comparison of a key type decides equality of the modelled values. *)
Class PyKeyOk (K : Type) `{PyKey K} := {
  key_eqb_spec : forall a b : K, reflect (a = b) (key_eqb a b)
}.

Module Dict.
Section Ops.
Context {K V : Type} `{PyKey K}.

Definition keys (d : list (K * V)) : list K := map fst d.
Definition values (d : list (K * V)) : list V := map snd d.
Definition items (d : list (K * V)) : list (K * V) := d.

(** [d.get(k)] *)
Fixpoint get (k : K) (d : list (K * V)) : option V :=
  match d with
  | [] => None
  | (k', v) :: d' => if key_eqb k' k then Some v else get k d'
  end.

(** [d.get(k, default)] *)
Definition get_default (k : K) (default : V) (d : list (K * V)) : V :=
  match get k d with Some v => v | None => default end.

(** [k in d] *)
Definition contains (k : K) (d : list (K * V)) : bool :=
  match get k d with Some _ => true | None => false end.

(** [d[k] = v]: an existing key keeps its place, a new one goes last. *)
Fixpoint setitem (k : K) (v : V) (d : list (K * V)) : list (K * V) :=
  match d with
  | [] => [(k, v)]
  | (k', v') :: d' =>
      if key_eqb k' k then (k', v) :: d' else (k', v') :: setitem k v d'
  end.

(** In-place change of the object stored under [k] (as [d[k].append(x)]
    does to the list it finds). *)
Fixpoint alter (f : V -> V) (k : K) (d : list (K * V)) : list (K * V) :=
  match d with
  | [] => []
  | (k', v') :: d' =>
      if key_eqb k' k then (k', f v') :: d' else (k', v') :: alter f k d'
  end.

(** [defaultdict.__missing__]: reading an absent key stores the default
    under it first. *)
Definition missing (k : K) (default : V) (d : list (K * V)) : list (K * V) :=
  if contains k d then d else setitem k default d.

End Ops.
End Dict.

(** ** Users and classification keys *)

Definition Key : Type := string * string * string.

Record User := mkUser {
  oid : nat;          (* identity of the object *)
  uid : Z;
  name : string;
  dept : string;
  role : string;
  clearance : string
}.

(** [User.__init__] at a given identity. *)
Definition User_init (o : nat) (uid_ : Z) (name_ dept_ role_ clearance_ : string)
  : User :=
  {| oid := o;
     uid := uid_;
     name := name_;
     dept := PyStr.lower (PyStr.strip dept_);
     role := PyStr.lower (PyStr.strip role_);
     clearance := PyStr.lower (PyStr.strip clearance_) |}.

Definition attr_tuple (u : User) : Key := (dept u, role u, clearance u).

(** [key[2]] *)
Definition key_clearance (k : Key) : string := let '(_, _, c) := k in c.

Definition Key_eqb (a b : Key) : bool :=
  let '(d1, r1, c1) := a in
  let '(d2, r2, c2) := b in
  String.eqb d1 d2 && String.eqb r1 r2 && String.eqb c1 c2.

#[export] Instance Key_PyKey : PyKey Key := {| key_eqb := Key_eqb |}.

#[export] Instance string_PyKey : PyKey string := {| key_eqb := String.eqb |}.

Definition Groups : Type := list (Key * list User).
Definition Perms : Type := list (Key * string).

(** [u in members]: no [__eq__] on [User], so the comparison is identity. *)
Definition py_in (u : User) (members : list User) : bool :=
  existsb (fun v => Nat.eqb (oid v) (oid u)) members.

(** ** The classifier and the relation checks *)

(** [groups[k].append(u)] on the [defaultdict(list)]. *)
Definition defaultdict_append (k : Key) (u : User) (groups : Groups) : Groups :=
  Dict.alter (fun members => members ++ [u]) k (Dict.missing k [] groups).

(** The closing [dict(groups)] copies the mapping, order included. *)
Definition build_classes (users : list User) : Groups :=
  fold_left (fun groups u => defaultdict_append (attr_tuple u) u groups)
            users [].

Fixpoint check_reflexive (users : list User) (groups : Groups) : bool :=
  match users with
  | [] => true
  | u :: rest =>
      if negb (py_in u (Dict.get_default (attr_tuple u) [] groups))
      then false
      else check_reflexive rest groups
  end.

Definition check_sym_trans (users : list User) : bool * bool := (true, true).

(** ** The permission assigner *)

Definition assign_permissions (groups : Groups) : Perms :=
  fold_left
    (fun perms key =>
       let clr := key_clearance key in
       if PyStr.in_tuple clr ["high"; "top"; "3"; "level3"]
       then Dict.setitem key "Level 3 Access" perms
       else if PyStr.in_tuple clr ["medium"; "2"; "level2"]
       then Dict.setitem key "Level 2 Access" perms
       else Dict.setitem key "Level 1 Access" perms)
    (Dict.keys groups) [].

(** What [print_groups] shows for one group: its number, its key, the
    permission text and the members (the text layout is left out). *)
Record GroupBlock := mkBlock {
  block_number : nat;
  block_key : Key;
  block_perm_text : string;
  block_members : list User
}.

Definition print_groups (groups : Groups) (perms : Perms) : list GroupBlock :=
  snd (fold_left
         (fun '(g, out) '(key, members) =>
            let perm_text := Dict.get_default key "Level ? (not assigned)" perms in
            (S g, out ++ [mkBlock g key perm_text members]))
         (Dict.items groups) (1, [])).

(** ** The world of the interactive code *)

Inductive cell := CStr (s : string) | CInt (n : Z).
Definition Row : Type := list cell.

(** [OSError] stands for the errors of the operating system and their
    subclasses ([FileNotFoundError], [IsADirectoryError],
    [PermissionError]). *)
Inductive exn := EOFError | ValueError | OSError.

(** The file system as the export meets it.  [fs_open name] is what
    [open(name, "w")] does: it raises, or it opens the file the name
    denotes, given by its resolved path (several names can denote one
    file).  [fs_rows] holds the rows written to each file, by resolved
    path.  The program makes no directory and removes nothing, so what a
    name denotes is the same throughout a run. *)
Record FileSystem := mkFS {
  fs_open : string -> exn + string;
  fs_rows : list (string * list Row)
}.

Record World := mkWorld {
  stdin : list string;                     (* lines not yet read *)
  next_oid : nat;                          (* identity of the next object *)
  files : FileSystem                       (* the files and their names *)
}.

Inductive Res (A : Type) :=
| Ok (a : A) (w : World)
| Raise (e : exn).
Arguments Ok {A} a w.
Arguments Raise {A} e.

Definition IO (A : Type) : Type := World -> Res A.

Definition ret {A} (a : A) : IO A := fun w => Ok a w.

Definition bind {A B} (m : IO A) (k : A -> IO B) : IO B :=
  fun w => match m w with
           | Ok a w' => k a w'
           | Raise e => Raise e
           end.

Definition raise {A} (e : exn) : IO A := fun _ => Raise e.

Declare Scope io_scope.
Delimit Scope io_scope with io.
Notation "x <- m ;; k" := (bind m (fun x => k))
  (at level 100, m at next level, right associativity) : io_scope.
Notation "m ;;; k" := (bind m (fun _ => k))
  (at level 100, right associativity) : io_scope.
Open Scope io_scope.

(** [input(prompt)]: the next line of the console, [EOFError] when none is
    left. *)
Definition input (prompt : string) : IO string :=
  fun w => match stdin w with
           | [] => Raise EOFError
           | line :: rest => Ok line (mkWorld rest (next_oid w) (files w))
           end.

(** [User(uid, name, dept, role, clearance)]: a new object. *)
Definition User_new (uid_ : Z) (name_ dept_ role_ clearance_ : string) : IO User :=
  fun w => Ok (User_init (next_oid w) uid_ name_ dept_ role_ clearance_)
              (mkWorld (stdin w) (S (next_oid w)) (files w)).

(** [open(filename, "w")] and the rows written through [csv.writer]: the
    error of [open] when the name cannot be opened, and nothing written
    then; otherwise the rows replace the content of the file the name
    denotes. *)
Definition write_file (filename : string) (rows : list Row) : IO unit :=
  fun w => match fs_open (files w) filename with
           | inl e => Raise e
           | inr path =>
               Ok tt (mkWorld (stdin w) (next_oid w)
                        (mkFS (fs_open (files w))
                              (Dict.setitem path rows (fs_rows (files w)))))
           end.

(** ** Adding a user *)

(** The function changes the caller's [users] and [groups] in place; the
    embedding returns them next to the result.  [None] is the rejected add. *)
Definition add_user_interactive (next_uid : Z) (users : list User) (groups : Groups)
  : IO (option User * list User * Groups) :=
  name_in <- input "Name: " ;;
  let name := PyStr.strip name_in in
  if negb (PyStr.truthy name) then ret (None, users, groups)
  else
    dept_in <- input "Department: " ;;
    let dept := PyStr.or_else (PyStr.strip dept_in) "unknown" in
    role_in <- input "Role: " ;;
    let role := PyStr.or_else (PyStr.strip role_in) "staff" in
    clr_in <- input "Clearance (low/medium/high): " ;;
    let clearance := PyStr.or_else (PyStr.strip clr_in) "low" in
    u <- User_new next_uid name dept role clearance ;;
    let key := attr_tuple u in
    let groups' :=
      if Dict.contains key groups
      then Dict.alter (fun members => members ++ [u]) key groups
      else Dict.setitem key [u] groups in
    ret (Some u, users ++ [u], groups').

(** ** Export *)

Definition csv_header : Row :=
  [CStr "group_dept"; CStr "group_role"; CStr "group_clearance";
   CStr "user_id"; CStr "user_name"].

(** [w.writerow(row)]: the writer is the list of rows written so far. *)
Definition writerow (w : list Row) (row : Row) : list Row := w ++ [row].

(** The rows [save_groups_csv] hands to the writer, in order. *)
Definition save_groups_csv_rows (groups : Groups) : list Row :=
  let w := writerow [] csv_header in
  fold_left
    (fun w '(key, members) =>
       let '(dept, role, clr) := key in
       fold_left
         (fun w u => writerow w [CStr dept; CStr role; CStr clr;
                                 CInt (uid u); CStr (name u)])
         members w)
    (Dict.items groups) w.

Definition save_groups_csv (groups : Groups) (filename : string) : IO unit :=
  write_file filename (save_groups_csv_rows groups).

(** ** The session of [main] *)

Definition demo_data : IO (list User) :=
  u1 <- User_new 1 "Alice Smith" "Engineering" "Developer" "High" ;;
  u2 <- User_new 2 "Bob Jones" "Engineering" "Developer" "High" ;;
  u3 <- User_new 3 "Charlie Ray" "Engineering" "Tester" "Medium" ;;
  u4 <- User_new 4 "Diana King" "HR" "Manager" "High" ;;
  u5 <- User_new 5 "Eve Stone" "HR" "Manager" "High" ;;
  u6 <- User_new 6 "Frank Liu" "Finance" "Analyst" "Low" ;;
  u7 <- User_new 7 "Grace Y" "Engineering" "Developer" "High" ;;
  u8 <- User_new 8 "Hector Z" "Finance" "Analyst" "Low" ;;
  ret [u1; u2; u3; u4; u5; u6; u7; u8].

(** The local variables of [main]. *)
Record Session := mkSession {
  s_users : list User;
  s_groups : Groups;
  s_perms : Perms;
  s_next_uid : Z
}.

(** [max(xs)]: [None] stands for the [ValueError] on an empty sequence. *)
Definition py_max (xs : list Z) : option Z :=
  match xs with
  | [] => None
  | x :: rest => Some (fold_left Z.max rest x)
  end.

(** [main] up to the menu loop. *)
Definition main_setup : IO Session :=
  users <- demo_data ;;
  let groups := build_classes users in
  let perms := assign_permissions groups in
  match py_max (map uid users) with
  | None => raise ValueError
  | Some m => ret (mkSession users groups perms (m + 1))
  end.

(** Choice 2: the permissions are computed again before the display. *)
Definition menu_show_groups (s : Session) : Session * list GroupBlock :=
  let perms := assign_permissions (s_groups s) in
  (mkSession (s_users s) (s_groups s) perms (s_next_uid s),
   print_groups (s_groups s) perms).

(** Choice 3. *)
Definition menu_add_user (s : Session) : IO Session :=
  r <- add_user_interactive (s_next_uid s) (s_users s) (s_groups s) ;;
  let '(new_u, users, groups) := r in
  match new_u with
  | Some _ =>
      ret (mkSession users groups (assign_permissions groups) (s_next_uid s + 1))
  | None => ret (mkSession users groups (s_perms s) (s_next_uid s))
  end.

(** Choice 6. *)
Definition menu_recompute (s : Session) : Session :=
  let groups := build_classes (s_users s) in
  let perms := assign_permissions groups in
  mkSession (s_users s) groups perms (s_next_uid s).

(** Choice 5. *)
Definition menu_save (s : Session) : IO Session :=
  fn_in <- input "Filename (default groups_output.csv): " ;;
  let fn := PyStr.or_else (PyStr.strip fn_in) "groups_output.csv" in
  save_groups_csv (s_groups s) fn ;;;
  ret s.

(** One turn of the menu loop; [None] is the exit. *)
Definition menu_turn (s : Session) : IO (option Session) :=
  choice_in <- input "Enter choice (1-8): " ;;
  let choice := PyStr.strip choice_in in
  if String.eqb choice "1" then ret (Some s)
  else if String.eqb choice "2" then ret (Some (fst (menu_show_groups s)))
  else if String.eqb choice "3" then (s' <- menu_add_user s ;; ret (Some s'))
  else if String.eqb choice "4" then ret (Some s)
  else if String.eqb choice "5" then (s' <- menu_save s ;; ret (Some s'))
  else if String.eqb choice "6" then ret (Some (menu_recompute s))
  else if String.eqb choice "7" then ret (Some s)
  else if String.eqb choice "8" then ret None
  else ret (Some s).

(** The menu loop over a given number of turns. *)
Fixpoint menu_turns (n : nat) (s : Session) : IO (option Session) :=
  match n with
  | O => ret (Some s)
  | S n' =>
      r <- menu_turn s ;;
      match r with
      | Some s' => menu_turns n' s'
      | None => ret None
      end
  end.

(** A name of letters, digits, [_], [-] and [.] only. *)
Definition plain_char (c : ascii) : bool :=
  let n := nat_of_ascii c in
  (((48 <=? n) && (n <=? 57)) || ((65 <=? n) && (n <=? 90))
   || ((97 <=? n) && (n <=? 122)) || (n =? 95) || (n =? 45) || (n =? 46))%nat.

Fixpoint all_plain (s : string) : bool :=
  match s with
  | EmptyString => true
  | String c s' => plain_char c && all_plain s'
  end.

(** A writable working directory with nothing in it: a plain name other
    than [.] and [..] opens the file of that name, every other name
    fails. *)
Definition demo_fs : FileSystem :=
  mkFS (fun name =>
          if PyStr.truthy name && all_plain name
             && negb (String.eqb name ".") && negb (String.eqb name "..")
          then inr name else inl OSError)
       [].

Definition world0 (lines : list string) : World := mkWorld lines 0 demo_fs.

(** ** Vocabulary of the statements *)

(** The user has classification key [k]. *)
Definition has_key (k : Key) (u : User) : bool := Key_eqb (attr_tuple u) k.

(** Position of the first occurrence of [k] in a list of keys. *)
Fixpoint index_of (k : Key) (l : list Key) : option nat :=
  match l with
  | [] => None
  | x :: l' => if Key_eqb x k then Some 0 else option_map S (index_of k l')
  end.

(** Position in [users] of the first user with key [k]. *)
Definition first_user_with (k : Key) (users : list User) : option nat :=
  index_of k (map attr_tuple users).

(** The keys of [out] stand in the order of their first occurrences in
    [seen]. *)
Definition first_seen_order (out seen : list Key) : Prop :=
  forall k1 k2 i1 i2 f1 f2,
    index_of k1 out = Some i1 -> index_of k2 out = Some i2 ->
    index_of k1 seen = Some f1 -> index_of k2 seen = Some f2 ->
    (i1 < i2 <-> f1 < f2).

(** Equality of user records is decidable (used to count occurrences). *)
Definition User_eq_dec (a b : User) : {a = b} + {a <> b}.
Proof.
  decide equality; try apply string_dec.
  - apply Z.eq_dec.
  - apply Nat.eq_dec.
Defined.

(** The tier of a clearance by the precedence table: level 3 for "high",
    "top", "3", "level3"; else level 2 for "medium", "2", "level2"; else
    level 1. *)
Definition tier_of (clr : string) : string :=
  if PyStr.in_tuple clr ["high"; "top"; "3"; "level3"] then "Level 3 Access"
  else if PyStr.in_tuple clr ["medium"; "2"; "level2"] then "Level 2 Access"
  else "Level 1 Access".

(** The export row of one membership. *)
Definition data_row (k : Key) (u : User) : Row :=
  let '(d, r, c) := k in [CStr d; CStr r; CStr c; CInt (uid u); CStr (name u)].

(** All memberships of a grouping, group after group. *)
Definition memberships (groups : Groups) : list (Key * User) :=
  flat_map (fun '(k, members) => map (fun u => (k, u)) members) groups.


(** Two users whose raw fields differ in case and blanks only. *)
Definition scenario_users : list User :=
  [User_init 0 1 "Ann" "Engineering" "Developer" "High";
   User_init 1 2 "Ben" "engineering " " developer" "HIGH"].

(** The session right after [main_setup] on a fresh world. *)
Definition demo_session : Session :=
  match main_setup (world0 []) with
  | Ok s _ => s
  | Raise _ => mkSession [] [] [] 0
  end.

(** ** The whole of [main] and the state it keeps consistent *)

(** [main]: the setup and then the menu loop.  Every turn reads a line, so
    one turn more than there are pending lines runs the loop to its end;
    [None] is the exit through choice 8. *)
Definition main : IO (option Session) :=
  fun w => (s <- main_setup ;; menu_turns (S (List.length (stdin w))) s) w.

(** The session and the world agree: grouping and permissions are those of
    the user list, ids are below the next id and pairwise different, and
    the users are different objects older than the next one. *)
Definition session_ok (s : Session) (w : World) : Prop :=
  s_groups s = build_classes (s_users s)
  /\ s_perms s = assign_permissions (s_groups s)
  /\ (forall u, In u (s_users s) -> (uid u < s_next_uid s)%Z)
  /\ NoDup (map uid (s_users s))
  /\ (forall u, In u (s_users s) -> oid u < next_oid w)
  /\ NoDup (map oid (s_users s)).

(** The world right after [main_setup] on a fresh world. *)
Definition demo_world : World :=
  match main_setup (world0 []) with
  | Ok _ w => w
  | Raise _ => world0 []
  end.

(** The first character, when there is one, is no blank. *)
Definition starts_clean (s : string) : Prop :=
  match s with
  | EmptyString => True
  | String c _ => PyStr.isspace c = false
  end.

(** Equality of keys is decidable (used to count the different keys). *)
Definition Key_eq_dec (a b : Key) : {a = b} + {a <> b}.
Proof. repeat decide equality. Defined.

(** * Properties *)

(** ** Facts about dictionaries *)

Lemma Key_eqb_spec (a b : Key) : reflect (a = b) (Key_eqb a b).
Proof.
  destruct a as [[d1 r1] c1], b as [[d2 r2] c2]; simpl.
  destruct (String.eqb_spec d1 d2), (String.eqb_spec r1 r2),
    (String.eqb_spec c1 c2); simpl; constructor; congruence.
Qed.

#[export] Instance Key_PyKeyOk : @PyKeyOk Key Key_PyKey :=
  Build_PyKeyOk Key Key_PyKey Key_eqb_spec.

#[export] Instance string_PyKeyOk : @PyKeyOk string string_PyKey :=
  Build_PyKeyOk string string_PyKey String.eqb_spec.

Section DictFacts.
Context {K V : Type} `{PyKeyOk K}.
Implicit Types (k : K) (v : V) (d : list (K * V)).

Lemma key_eqb_eq k k' : key_eqb k k' = true <-> k = k'.
Proof. destruct (key_eqb_spec k k'); split; congruence. Qed.

Lemma key_eqb_refl k : key_eqb k k = true.
Proof. now apply key_eqb_eq. Qed.

Lemma key_eqb_neq k k' : key_eqb k k' = false <-> k <> k'.
Proof. destruct (key_eqb_spec k k'); split; congruence. Qed.

Lemma key_eqb_sym k k' : key_eqb k k' = key_eqb k' k.
Proof.
  destruct (key_eqb_spec k k'), (key_eqb_spec k' k); congruence.
Qed.

Lemma get_In k v d : Dict.get k d = Some v -> In (k, v) d.
Proof.
  induction d as [|[k' v'] d IH]; simpl; [discriminate|].
  destruct (key_eqb_spec k' k) as [->|Hne].
  - intros [= ->]. now left.
  - intros Hg. right. now apply IH.
Qed.

Lemma get_None_keys k d : Dict.get k d = None <-> ~ In k (Dict.keys d).
Proof.
  induction d as [|[k' v'] d IH]; simpl.
  - tauto.
  - destruct (key_eqb_spec k' k) as [->|Hne].
    + split; [discriminate | intros Hn; exfalso; apply Hn; now left].
    + rewrite IH. tauto.
Qed.

Lemma contains_keys k d : Dict.contains k d = true <-> In k (Dict.keys d).
Proof.
  unfold Dict.contains. destruct (Dict.get k d) eqn:E.
  - split; [intros _ | reflexivity].
    apply get_In in E. apply (in_map fst) in E. exact E.
  - apply get_None_keys in E. split; [discriminate | contradiction].
Qed.

Lemma contains_false_keys k d :
  Dict.contains k d = false <-> ~ In k (Dict.keys d).
Proof.
  rewrite <- contains_keys. destruct (Dict.contains k d); split; congruence.
Qed.

Lemma In_get k v d : NoDup (Dict.keys d) -> In (k, v) d -> Dict.get k d = Some v.
Proof.
  induction d as [|[k' v'] d IH]; simpl; [tauto|].
  intros Hnd Hin. inversion Hnd as [|? ? Hnotin Hnd']; subst.
  destruct Hin as [[= -> ->]|Hin].
  - now rewrite key_eqb_refl.
  - destruct (key_eqb_spec k' k) as [->|Hne].
    + exfalso. apply Hnotin. apply (in_map fst) in Hin. exact Hin.
    + now apply IH.
Qed.

Lemma keys_alter f k d : Dict.keys (Dict.alter f k d) = Dict.keys d.
Proof.
  induction d as [|[k' v'] d IH]; simpl; [reflexivity|].
  destruct (key_eqb k' k); simpl; [reflexivity | now rewrite IH].
Qed.

Lemma setitem_absent k v d :
  Dict.contains k d = false -> Dict.setitem k v d = d ++ [(k, v)].
Proof.
  unfold Dict.contains.
  induction d as [|[k' v'] d IH]; simpl; [reflexivity|].
  destruct (key_eqb k' k); [discriminate|].
  intros Hc. now rewrite IH.
Qed.

Lemma keys_setitem_present k v d :
  Dict.contains k d = true -> Dict.keys (Dict.setitem k v d) = Dict.keys d.
Proof.
  unfold Dict.contains.
  induction d as [|[k' v'] d IH]; simpl; [discriminate|].
  destruct (key_eqb k' k); simpl; [reflexivity|].
  intros Hc. now rewrite IH.
Qed.

Lemma keys_setitem k v d :
  Dict.keys (Dict.setitem k v d)
  = if Dict.contains k d then Dict.keys d else Dict.keys d ++ [k].
Proof.
  destruct (Dict.contains k d) eqn:E.
  - now apply keys_setitem_present.
  - rewrite (setitem_absent _ _ _ E). unfold Dict.keys.
    now rewrite map_app.
Qed.

Lemma get_setitem k v k' d :
  Dict.get k' (Dict.setitem k v d)
  = if key_eqb k k' then Some v else Dict.get k' d.
Proof.
  induction d as [|[k0 v0] d IH]; simpl.
  - reflexivity.
  - destruct (key_eqb_spec k0 k) as [->|Hne]; simpl.
    + destruct (key_eqb k k'); reflexivity.
    + destruct (key_eqb_spec k0 k') as [->|Hne'].
      * apply key_eqb_neq in Hne. rewrite key_eqb_sym in Hne.
        now rewrite Hne.
      * exact IH.
Qed.

Lemma get_alter f k k' d :
  Dict.get k' (Dict.alter f k d)
  = if key_eqb k k' then option_map f (Dict.get k d) else Dict.get k' d.
Proof.
  induction d as [|[k0 v0] d IH]; simpl.
  - now destruct (key_eqb k k').
  - destruct (key_eqb_spec k0 k) as [->|Hne]; simpl.
    + destruct (key_eqb k k'); reflexivity.
    + destruct (key_eqb_spec k0 k') as [->|Hne'].
      * apply key_eqb_neq in Hne. rewrite key_eqb_sym in Hne.
        now rewrite Hne.
      * exact IH.
Qed.

Lemma contains_setitem k v k' d :
  Dict.contains k' (Dict.setitem k v d)
  = key_eqb k k' || Dict.contains k' d.
Proof.
  unfold Dict.contains. rewrite get_setitem.
  now destruct (key_eqb k k').
Qed.

Lemma NoDup_keys_setitem k v d :
  NoDup (Dict.keys d) -> NoDup (Dict.keys (Dict.setitem k v d)).
Proof.
  intros Hnd. rewrite keys_setitem.
  destruct (Dict.contains k d) eqn:E; [exact Hnd|].
  apply contains_false_keys in E.
  apply NoDup_rev in Hnd. rewrite <- (rev_involutive (_ ++ _)).
  apply NoDup_rev. rewrite rev_app_distr. simpl.
  constructor; [|exact Hnd]. now rewrite <- in_rev.
Qed.

Lemma alter_absent f k d :
  Dict.contains k d = false -> Dict.alter f k d = d.
Proof.
  unfold Dict.contains.
  induction d as [|[k' v'] d IH]; simpl; [reflexivity|].
  destruct (key_eqb k' k); [discriminate|].
  intros Hc. now rewrite IH.
Qed.

End DictFacts.

(** ** The scenario of two users with one key *)

Example scenario_one_group :
  build_classes scenario_users
  = [(("engineering", "developer", "high"), scenario_users)].
Proof. reflexivity. Qed.

Example scenario_level3 :
  assign_permissions (build_classes scenario_users)
  = [(("engineering", "developer", "high"), "Level 3 Access")].
Proof. reflexivity. Qed.

Example demo_session_keys :
  Dict.keys (s_groups demo_session)
  = [("engineering", "developer", "high"); ("engineering", "tester", "medium");
     ("hr", "manager", "high"); ("finance", "analyst", "low")].
Proof. reflexivity. Qed.

(** ** Facts about the classifier *)

Ltac fold_key_eqb := change (@key_eqb Key Key_PyKey) with Key_eqb in *.

Lemma Key_eqb_eq a b : Key_eqb a b = true <-> a = b.
Proof. destruct (Key_eqb_spec a b); split; congruence. Qed.

Lemma Key_eqb_refl a : Key_eqb a a = true.
Proof. now apply Key_eqb_eq. Qed.

Lemma Key_eqb_neq a b : Key_eqb a b = false <-> a <> b.
Proof. destruct (Key_eqb_spec a b); split; congruence. Qed.

Lemma has_key_attr_tuple u : has_key (attr_tuple u) u = true.
Proof. apply Key_eqb_refl. Qed.

Lemma has_key_eq k u : has_key k u = true <-> attr_tuple u = k.
Proof. apply Key_eqb_eq. Qed.

Lemma contains_missing (k : Key) (groups : Groups) :
  Dict.contains k (Dict.missing k [] groups) = true.
Proof.
  unfold Dict.missing. destruct (Dict.contains k groups) eqn:E; [exact E|].
  rewrite contains_setitem. fold_key_eqb. now rewrite Key_eqb_refl.
Qed.

Lemma keys_defaultdict_append k u (groups : Groups) :
  Dict.keys (defaultdict_append k u groups)
  = if Dict.contains k groups then Dict.keys groups else Dict.keys groups ++ [k].
Proof.
  unfold defaultdict_append, Dict.missing. rewrite keys_alter.
  destruct (Dict.contains k groups) eqn:E; [reflexivity|].
  rewrite keys_setitem. now rewrite E.
Qed.

Lemma get_defaultdict_append k0 u k (groups : Groups) :
  Dict.get k (defaultdict_append k0 u groups)
  = if Key_eqb k0 k then Some (Dict.get_default k [] groups ++ [u])
    else Dict.get k groups.
Proof.
  unfold defaultdict_append. rewrite get_alter. fold_key_eqb.
  destruct (Key_eqb_spec k0 k) as [->|Hne].
  - unfold Dict.missing, Dict.get_default, Dict.contains.
    destruct (Dict.get k groups) eqn:E; simpl.
    + now rewrite E.
    + rewrite get_setitem. fold_key_eqb. now rewrite Key_eqb_refl.
  - unfold Dict.missing. destruct (Dict.contains k0 groups); [reflexivity|].
    rewrite get_setitem. fold_key_eqb. apply Key_eqb_neq in Hne.
    now rewrite Hne.
Qed.

Lemma get_fold_append (users : list User) : forall (groups : Groups) k,
  Dict.get k (fold_left (fun g u => defaultdict_append (attr_tuple u) u g)
                        users groups)
  = match filter (has_key k) users with
    | [] => Dict.get k groups
    | members => Some (Dict.get_default k [] groups ++ members)
    end.
Proof.
  induction users as [|u users IH]; intros groups k; simpl; [reflexivity|].
  rewrite IH. unfold Dict.get_default at 1.
  rewrite get_defaultdict_append. unfold has_key at 2.
  destruct (Key_eqb (attr_tuple u) k).
  - destruct (filter (has_key k) users); [reflexivity|].
    now rewrite <- app_assoc.
  - reflexivity.
Qed.

Lemma get_build_classes users k :
  Dict.get k (build_classes users)
  = match filter (has_key k) users with
    | [] => None
    | members => Some members
    end.
Proof. unfold build_classes. now rewrite get_fold_append. Qed.

Lemma build_classes_snoc users u :
  build_classes (users ++ [u])
  = defaultdict_append (attr_tuple u) u (build_classes users).
Proof. unfold build_classes. now rewrite fold_left_app. Qed.

Lemma NoDup_snoc {A} (l : list A) (x : A) :
  NoDup l -> ~ In x l -> NoDup (l ++ [x]).
Proof.
  intros Hnd Hx. apply NoDup_rev in Hnd.
  rewrite <- (rev_involutive (l ++ [x])). apply NoDup_rev.
  rewrite rev_app_distr. simpl. constructor; [|exact Hnd].
  now rewrite <- in_rev.
Qed.

Lemma NoDup_keys_build_classes users : NoDup (Dict.keys (build_classes users)).
Proof.
  induction users as [|u users IH] using rev_ind.
  - constructor.
  - rewrite build_classes_snoc, keys_defaultdict_append.
    destruct (Dict.contains _ _) eqn:E; [exact IH|].
    apply NoDup_snoc; [exact IH|]. now apply contains_false_keys.
Qed.

Lemma keys_build_classes_In users k :
  In k (Dict.keys (build_classes users)) <-> In k (map attr_tuple users).
Proof.
  rewrite <- contains_keys. unfold Dict.contains. rewrite get_build_classes.
  destruct (filter (has_key k) users) as [|u members] eqn:E.
  - split; [discriminate|]. intros Hin. apply in_map_iff in Hin.
    destruct Hin as [u [Hk Hu]]. exfalso.
    assert (Hf : In u (filter (has_key k) users)).
    { apply filter_In. split; [exact Hu | now apply has_key_eq]. }
    rewrite E in Hf. exact Hf.
  - split; [intros _ | reflexivity].
    assert (Hf : In u (filter (has_key k) users)) by (rewrite E; now left).
    apply filter_In in Hf. destruct Hf as [Hu Hk].
    apply has_key_eq in Hk. subst k. now apply in_map.
Qed.

Lemma concat_values_append k u (groups : Groups) :
  Dict.contains k groups = true ->
  Permutation
    (concat (Dict.values (Dict.alter (fun members => members ++ [u]) k groups)))
    (concat (Dict.values groups) ++ [u]).
Proof.
  unfold Dict.contains.
  induction groups as [|[k' members] groups IH]; simpl; [discriminate|].
  destruct (Key_eqb k' k); simpl.
  - intros _. rewrite <- !app_assoc. apply Permutation_app_head.
    apply Permutation_app_comm.
  - intros Hc. rewrite <- app_assoc. apply Permutation_app_head.
    now apply IH.
Qed.

Lemma concat_values_missing k (groups : Groups) :
  concat (Dict.values (Dict.missing k [] groups)) = concat (Dict.values groups).
Proof.
  unfold Dict.missing. destruct (Dict.contains k groups) eqn:E; [reflexivity|].
  rewrite (setitem_absent _ _ _ E). unfold Dict.values.
  rewrite map_app, concat_app. simpl. now rewrite app_nil_r.
Qed.

Lemma concat_values_build_classes users :
  Permutation (concat (Dict.values (build_classes users))) users.
Proof.
  induction users as [|u users IH] using rev_ind.
  - constructor.
  - rewrite build_classes_snoc. unfold defaultdict_append.
    etransitivity.
    + apply concat_values_append. apply contains_missing.
    + rewrite concat_values_missing. now apply Permutation_app_tail.
Qed.

Lemma own_group_build_classes users u :
  In u users ->
  exists members,
    Dict.get (attr_tuple u) (build_classes users) = Some members
    /\ In u members.
Proof.
  intros Hu. rewrite get_build_classes.
  assert (Hf : In u (filter (has_key (attr_tuple u)) users)).
  { apply filter_In. split; [exact Hu | apply has_key_attr_tuple]. }
  destruct (filter (has_key (attr_tuple u)) users) as [|v members];
    [contradiction|].
  exists (v :: members). now split.
Qed.

Lemma entry_build_classes users k members :
  In (k, members) (build_classes users) ->
  members = filter (has_key k) users /\ members <> [].
Proof.
  intros Hin. apply In_get in Hin; [|apply NoDup_keys_build_classes].
  rewrite get_build_classes in Hin.
  destruct (filter (has_key k) users); [discriminate|].
  injection Hin as <-. split; [reflexivity | discriminate].
Qed.

Lemma count_occ_filter (p : User -> bool) (l : list User) (u : User) :
  count_occ User_eq_dec (filter p l) u
  = if p u then count_occ User_eq_dec l u else 0.
Proof.
  induction l as [|v l IH]; simpl.
  - now destruct (p u).
  - destruct (User_eq_dec v u) as [->|Hne].
    + destruct (p u) eqn:E; simpl; [|exact IH].
      destruct (User_eq_dec u u); [|contradiction]. now rewrite IH.
    + destruct (p v); simpl; [|exact IH].
      destruct (User_eq_dec v u); [contradiction|exact IH].
Qed.

(** C1. The grouping returned by [build_classes] partitions the input:
    its keys are pairwise distinct, the members of all groups together are
    the input users, each occurrence once; a group is never empty and holds
    only users whose (department, role, clearance) triple is its key; every
    input user is in the group stored under its own triple; and a user
    occurs in that group as often as in the input and in no other group.
    The triple of a user is made of the trimmed, lowercased fields it was
    built from. *)
Theorem build_classes_partition (users : list User) :
  let groups := build_classes users in
  NoDup (Dict.keys groups)
  /\ Permutation (List.concat (Dict.values groups)) users
  /\ (forall k members, In (k, members) groups ->
        members <> [] /\ forall u, In u members -> attr_tuple u = k)
  /\ (forall u, In u users ->
        exists members,
          Dict.get (attr_tuple u) groups = Some members /\ In u members)
  /\ (forall u k members, In (k, members) groups ->
        count_occ User_eq_dec members u
        = if has_key k u then count_occ User_eq_dec users u else 0)
  /\ (forall o i n d r c,
        attr_tuple (User_init o i n d r c)
        = (PyStr.lower (PyStr.strip d), PyStr.lower (PyStr.strip r),
           PyStr.lower (PyStr.strip c))).
Proof.
  cbv zeta. split; [apply NoDup_keys_build_classes|].
  split; [apply concat_values_build_classes|].
  split; [|split; [|split; [|reflexivity]]].
  - intros k members Hin. apply entry_build_classes in Hin.
    destruct Hin as [-> Hne]. split; [exact Hne|].
    intros u Hu. apply filter_In in Hu. now apply has_key_eq.
  - apply own_group_build_classes.
  - intros u k members Hin. apply entry_build_classes in Hin.
    destruct Hin as [-> _]. apply count_occ_filter.
Qed.

Lemma build_classes_partition_witness :
  let u := User_init 0 1 "Ann" "Engineering" "Developer" "High" in
  In u scenario_users
  /\ exists members,
       Dict.get (attr_tuple u) (build_classes scenario_users) = Some members
       /\ In u members.
Proof.
  cbv zeta. split; [now left|].
  destruct (build_classes_partition scenario_users)
    as (_ & _ & _ & Hown & _).
  apply Hown. now left.
Defined.

(** ** First-seen order of the keys *)

Lemma index_of_lt k l i : index_of k l = Some i -> i < List.length l.
Proof.
  revert i. induction l as [|x l IH]; simpl; intros i; [discriminate|].
  destruct (Key_eqb x k).
  - intros [= <-]. lia.
  - destruct (index_of k l) as [j|]; simpl; [|discriminate].
    intros [= <-]. specialize (IH j eq_refl). lia.
Qed.

Lemma index_of_None k l : index_of k l = None <-> ~ In k l.
Proof.
  induction l as [|x l IH]; simpl; [tauto|].
  destruct (Key_eqb_spec x k) as [->|Hne].
  - split; [discriminate | intros Hn; exfalso; apply Hn; now left].
  - destruct (index_of k l); simpl.
    + split; [discriminate|]. intros Hn.
      assert (Hnot : ~ In k l) by tauto.
      apply IH in Hnot. discriminate.
    + split; [|reflexivity]. intros _ [Heq|Hin]; [contradiction|].
      now apply IH.
Qed.

Lemma index_of_In k l : In k l -> exists i, index_of k l = Some i.
Proof.
  intros Hin. destruct (index_of k l) as [i|] eqn:E; [now exists i|].
  apply index_of_None in E. contradiction.
Qed.

Lemma index_of_Some_In k l i : index_of k l = Some i -> In k l.
Proof.
  revert i. induction l as [|x l IH]; simpl; intros i; [discriminate|].
  destruct (Key_eqb_spec x k) as [->|Hne]; [now left|].
  destruct (index_of k l) as [j|]; simpl; [|discriminate].
  intros _. right. now apply (IH j).
Qed.

Lemma index_of_snoc k l x :
  index_of k (l ++ [x])
  = match index_of k l with
    | Some i => Some i
    | None => if Key_eqb x k then Some (List.length l) else None
    end.
Proof.
  induction l as [|y l IH]; simpl.
  - now destruct (Key_eqb x k).
  - destruct (Key_eqb y k); [reflexivity|]. rewrite IH.
    destruct (index_of k l); simpl; [reflexivity|].
    now destruct (Key_eqb x k).
Qed.

(** A key already present: the output keeps its keys. *)
Lemma first_seen_order_repeat out seen x :
  (forall k, In k out <-> In k seen) ->
  In x out ->
  first_seen_order out seen -> first_seen_order out (seen ++ [x]).
Proof.
  intros Hsame Hx IH k1 k2 i1 i2 f1 f2 Hi1 Hi2 Hf1 Hf2.
  rewrite index_of_snoc in Hf1, Hf2.
  destruct (index_of_In k1 seen) as [g1 Hg1];
    [apply Hsame; eapply index_of_Some_In; eassumption|].
  destruct (index_of_In k2 seen) as [g2 Hg2];
    [apply Hsame; eapply index_of_Some_In; eassumption|].
  rewrite Hg1 in Hf1. rewrite Hg2 in Hf2.
  injection Hf1 as <-. injection Hf2 as <-.
  now apply (IH k1 k2).
Qed.

(** A new key: it goes last in the output. *)
Lemma first_seen_order_new out seen x :
  (forall k, In k out <-> In k seen) ->
  ~ In x out ->
  first_seen_order out seen -> first_seen_order (out ++ [x]) (seen ++ [x]).
Proof.
  intros Hsame Hx IH k1 k2 i1 i2 f1 f2 Hi1 Hi2 Hf1 Hf2.
  rewrite index_of_snoc in Hi1, Hi2, Hf1, Hf2.
  assert (Hagree : forall k, index_of k out = None <-> index_of k seen = None).
  { intros k. rewrite !index_of_None. now rewrite Hsame. }
  destruct (index_of k1 out) as [a1|] eqn:Ea1;
    destruct (index_of k1 seen) as [b1|] eqn:Eb1;
    try (apply Hagree in Ea1; congruence);
    try (apply Hagree in Eb1; congruence);
    destruct (index_of k2 out) as [a2|] eqn:Ea2;
    destruct (index_of k2 seen) as [b2|] eqn:Eb2;
    try (apply Hagree in Ea2; congruence);
    try (apply Hagree in Eb2; congruence).
  - injection Hi1 as <-. injection Hi2 as <-.
    injection Hf1 as <-. injection Hf2 as <-.
    now apply (IH k1 k2).
  - destruct (Key_eqb x k2); [|discriminate].
    injection Hi1 as <-. injection Hi2 as <-.
    injection Hf1 as <-. injection Hf2 as <-.
    apply index_of_lt in Ea1, Eb1. lia.
  - destruct (Key_eqb x k1); [|discriminate].
    injection Hi1 as <-. injection Hi2 as <-.
    injection Hf1 as <-. injection Hf2 as <-.
    apply index_of_lt in Ea2, Eb2. lia.
  - destruct (Key_eqb x k1); [|discriminate].
    destruct (Key_eqb x k2); [|discriminate].
    injection Hi1 as <-. injection Hi2 as <-.
    injection Hf1 as <-. injection Hf2 as <-. lia.
Qed.

Lemma build_classes_order users :
  first_seen_order (Dict.keys (build_classes users)) (map attr_tuple users).
Proof.
  induction users as [|u users IH] using rev_ind.
  - intros k1 k2 i1 i2 f1 f2 Hi1. discriminate.
  - rewrite build_classes_snoc, keys_defaultdict_append, map_app. simpl.
    destruct (Dict.contains _ _) eqn:E.
    + apply first_seen_order_repeat; [apply keys_build_classes_In| |exact IH].
      now apply contains_keys.
    + apply first_seen_order_new; [apply keys_build_classes_In| |exact IH].
      now apply contains_false_keys.
Qed.

(** C7. The keys of the mapping returned by [build_classes] are the keys
    that occur in the input, each once, and they stand in first-occurrence
    order: key [k1] comes before key [k2] in the mapping exactly when the
    first user with key [k1] comes before the first user with key [k2] in
    the input.  The members of a group are the input users with its key,
    in input order. *)
Theorem build_classes_first_seen (users : list User) :
  let groups := build_classes users in
  (forall k, In k (Dict.keys groups) <-> In k (map attr_tuple users))
  /\ NoDup (Dict.keys groups)
  /\ (forall k1 k2 i1 i2 f1 f2,
        index_of k1 (Dict.keys groups) = Some i1 ->
        index_of k2 (Dict.keys groups) = Some i2 ->
        first_user_with k1 users = Some f1 ->
        first_user_with k2 users = Some f2 ->
        (i1 < i2 <-> f1 < f2))
  /\ (forall k members, In (k, members) groups ->
        members = filter (has_key k) users).
Proof.
  cbv zeta. split; [apply keys_build_classes_In|].
  split; [apply NoDup_keys_build_classes|].
  split; [exact (build_classes_order users)|].
  intros k members Hin. now apply entry_build_classes in Hin.
Qed.

Lemma build_classes_first_seen_witness :
  let users := s_users demo_session in
  let hr := ("hr", "manager", "high") in
  let fin := ("finance", "analyst", "low") in
  index_of hr (Dict.keys (build_classes users)) = Some 2
  /\ index_of fin (Dict.keys (build_classes users)) = Some 3
  /\ first_user_with hr users = Some 3
  /\ first_user_with fin users = Some 5
  /\ (2 < 3 <-> 3 < 5).
Proof.
  cbv zeta. repeat (split; [reflexivity|]).
  destruct (build_classes_first_seen (s_users demo_session))
    as (_ & _ & Hord & _).
  apply (Hord ("hr", "manager", "high") ("finance", "analyst", "low"));
    reflexivity.
Defined.

(** ** The relation checks *)

Lemma py_in_In u members : In u members -> py_in u members = true.
Proof.
  intros Hin. unfold py_in. apply existsb_exists. exists u.
  split; [exact Hin | apply Nat.eqb_refl].
Qed.

Lemma check_reflexive_incl users : forall l,
  incl l users -> check_reflexive l (build_classes users) = true.
Proof.
  induction l as [|u l IH]; intros Hincl; simpl; [reflexivity|].
  assert (Hu : In u users) by (apply Hincl; now left).
  destruct (own_group_build_classes users u Hu) as [members [Hget Hin]].
  unfold Dict.get_default. rewrite Hget. rewrite (py_in_In _ _ Hin). simpl.
  apply IH. intros v Hv. apply Hincl. now right.
Qed.

(** C8. On the grouping built from the same users, [check_reflexive]
    answers true, and [check_sym_trans] answers (true, true) on every
    input. *)
Theorem relation_checks_hold (users : list User) :
  check_reflexive users (build_classes users) = true
  /\ check_sym_trans users = (true, true).
Proof.
  split; [|reflexivity]. apply check_reflexive_incl. apply incl_refl.
Qed.

(** ** Facts about the permission assigner *)

Lemma assign_permissions_tier_of groups :
  assign_permissions groups
  = fold_left (fun perms key => Dict.setitem key (tier_of (key_clearance key)) perms)
              (Dict.keys groups) [].
Proof.
  unfold assign_permissions. generalize (@nil (Key * string)).
  induction (Dict.keys groups) as [|k ks IH]; intros perms; cbn [fold_left];
    [reflexivity|].
  rewrite <- IH. f_equal. unfold tier_of.
  destruct (PyStr.in_tuple (key_clearance k) ["high"; "top"; "3"; "level3"]);
    [reflexivity|].
  now destruct (PyStr.in_tuple (key_clearance k) ["medium"; "2"; "level2"]).
Qed.

Lemma get_assign_fold (ks : list Key) : forall (perms : Perms) k,
  Dict.get k (fold_left (fun perms key =>
                           Dict.setitem key (tier_of (key_clearance key)) perms)
                        ks perms)
  = if existsb (fun x => Key_eqb x k) ks
    then Some (tier_of (key_clearance k))
    else Dict.get k perms.
Proof.
  induction ks as [|k0 ks IH]; intros perms k; simpl; [reflexivity|].
  rewrite IH, get_setitem. fold_key_eqb.
  destruct (Key_eqb_spec k0 k) as [->|Hne]; simpl.
  - now destruct (existsb _ ks).
  - reflexivity.
Qed.

Lemma contains_existsb {V} k (d : list (Key * V)) :
  existsb (fun x => Key_eqb x k) (Dict.keys d) = Dict.contains k d.
Proof.
  unfold Dict.contains.
  induction d as [|[k' v] d IH]; simpl; [reflexivity|]. fold_key_eqb.
  destruct (Key_eqb k' k); simpl; [reflexivity | exact IH].
Qed.

Lemma get_assign_permissions groups k :
  Dict.get k (assign_permissions groups)
  = if Dict.contains k groups then Some (tier_of (key_clearance k)) else None.
Proof.
  rewrite assign_permissions_tier_of, get_assign_fold.
  now rewrite contains_existsb.
Qed.

Lemma NoDup_keys_assign_permissions groups :
  NoDup (Dict.keys (assign_permissions groups)).
Proof.
  rewrite assign_permissions_tier_of.
  assert (Hgen : forall ks (perms : Perms), NoDup (Dict.keys perms) ->
            NoDup (Dict.keys (fold_left
              (fun perms key =>
                 Dict.setitem key (tier_of (key_clearance key)) perms)
              ks perms))).
  { induction ks as [|k ks IH]; intros perms Hnd; simpl; [exact Hnd|].
    apply IH. now apply NoDup_keys_setitem. }
  apply Hgen. constructor.
Qed.

Lemma tier_of_cases clr :
  tier_of clr = "Level 3 Access" \/ tier_of clr = "Level 2 Access"
  \/ tier_of clr = "Level 1 Access".
Proof.
  unfold tier_of.
  destruct (PyStr.in_tuple clr ["high"; "top"; "3"; "level3"]); [now left|].
  destruct (PyStr.in_tuple clr ["medium"; "2"; "level2"]);
    [right; now left | right; now right].
Qed.

Lemma in_tuple_In s t : PyStr.in_tuple s t = true <-> In s t.
Proof.
  unfold PyStr.in_tuple. rewrite existsb_exists. split.
  - intros [x [Hin Heq]]. apply String.eqb_eq in Heq. now subst.
  - intros Hin. exists s. split; [exact Hin | apply String.eqb_refl].
Qed.

Lemma in_tuple_not_In s t : PyStr.in_tuple s t = false <-> ~ In s t.
Proof.
  rewrite <- in_tuple_In. destruct (PyStr.in_tuple s t); split; congruence.
Qed.

(** C2. [assign_permissions] gives every key of the grouping exactly one
    tier, fixed by the clearance of the key alone: level 3 when the
    clearance is "high", "top", "3" or "level3"; otherwise level 2 when it
    is "medium", "2" or "level2"; otherwise level 1, which covers "low",
    the empty string and everything else.  The three tiers are pairwise
    different. *)
Theorem assign_permissions_precedence (groups : Groups) (key : Key) :
  Dict.contains key groups = true ->
  let clr := key_clearance key in
  (exists! tier, Dict.get key (assign_permissions groups) = Some tier)
  /\ (In clr ["high"; "top"; "3"; "level3"] ->
      Dict.get key (assign_permissions groups) = Some "Level 3 Access")
  /\ (~ In clr ["high"; "top"; "3"; "level3"] ->
      In clr ["medium"; "2"; "level2"] ->
      Dict.get key (assign_permissions groups) = Some "Level 2 Access")
  /\ (~ In clr ["high"; "top"; "3"; "level3"] ->
      ~ In clr ["medium"; "2"; "level2"] ->
      Dict.get key (assign_permissions groups) = Some "Level 1 Access")
  /\ (clr = "low" \/ clr = "" ->
      Dict.get key (assign_permissions groups) = Some "Level 1 Access")
  /\ ("Level 3 Access" <> "Level 2 Access"
      /\ "Level 3 Access" <> "Level 1 Access"
      /\ "Level 2 Access" <> "Level 1 Access").
Proof.
  intros Hin clr. rewrite get_assign_permissions, Hin. fold clr.
  split; [|split; [|split; [|split; [|split]]]].
  - exists (tier_of clr). split; [reflexivity|]. now intros t' [= <-].
  - intros H3. apply in_tuple_In in H3. unfold tier_of. now rewrite H3.
  - intros H3 H2. apply in_tuple_not_In in H3. apply in_tuple_In in H2.
    unfold tier_of. now rewrite H3, H2.
  - intros H3 H2. apply in_tuple_not_In in H3, H2.
    unfold tier_of. now rewrite H3, H2.
  - now intros [-> | ->].
  - repeat split; discriminate.
Qed.

Lemma assign_permissions_precedence_witness :
  let groups := build_classes scenario_users in
  let key := ("engineering", "developer", "high") in
  Dict.contains key groups = true
  /\ In (key_clearance key) ["high"; "top"; "3"; "level3"]
  /\ Dict.get key (assign_permissions groups) = Some "Level 3 Access".
Proof.
  cbv zeta. split; [reflexivity|]. split; [now left|].
  destruct (assign_permissions_precedence
              (build_classes scenario_users)
              ("engineering", "developer", "high") eq_refl)
    as (_ & H3 & _).
  apply H3. now left.
Defined.

Lemma tier_of_not_fallback clr : tier_of clr <> "Level ? (not assigned)".
Proof.
  destruct (tier_of_cases clr) as [-> | [-> | ->]]; discriminate.
Qed.

Lemma print_groups_inv (perms : Perms) (P : GroupBlock -> Prop) :
  forall (l : Groups) g out,
    Forall P out ->
    (forall g' k members, In (k, members) l ->
       P (mkBlock g' k (Dict.get_default k "Level ? (not assigned)" perms)
                  members)) ->
    Forall P (snd (fold_left
      (fun '(g, out) '(key, members) =>
         let perm_text :=
           Dict.get_default key "Level ? (not assigned)" perms in
         (S g, out ++ [mkBlock g key perm_text members]))
      l (g, out))).
Proof.
  induction l as [|[k members] l IH]; intros g out Hout HP; simpl;
    [exact Hout|].
  apply IH.
  - apply Forall_app. split; [exact Hout|]. constructor; [|constructor].
    apply HP. now left.
  - intros g' k' m' Hin. apply HP. now right.
Qed.

Lemma print_groups_keys (perms : Perms) : forall (l : Groups) g out,
  map block_key (snd (fold_left
      (fun '(g, out) '(key, members) =>
         let perm_text :=
           Dict.get_default key "Level ? (not assigned)" perms in
         (S g, out ++ [mkBlock g key perm_text members]))
      l (g, out)))
  = map block_key out ++ Dict.keys l.
Proof.
  induction l as [|[k members] l IH]; intros g out; simpl.
  - now rewrite app_nil_r.
  - rewrite IH, map_app. simpl. now rewrite <- app_assoc.
Qed.

(** C10. The mapping returned by [assign_permissions] has the keys of the
    grouping and no others, each once; so when [print_groups] shows a
    grouping with the permissions computed from it, every group is shown
    with the tier stored under its key and never with the text
    "Level ? (not assigned)". *)
Theorem assign_permissions_same_keys (groups : Groups) :
  let perms := assign_permissions groups in
  (forall k, Dict.contains k perms = Dict.contains k groups)
  /\ (forall k, In k (Dict.keys perms) <-> In k (Dict.keys groups))
  /\ NoDup (Dict.keys perms)
  /\ map block_key (print_groups groups perms) = Dict.keys groups
  /\ Forall (fun b => block_perm_text b <> "Level ? (not assigned)"
                     /\ Dict.get (block_key b) perms = Some (block_perm_text b))
            (print_groups groups perms).
Proof.
  cbv zeta.
  assert (Hc : forall k, Dict.contains k (assign_permissions groups)
                         = Dict.contains k groups).
  { intros k. unfold Dict.contains at 1. rewrite get_assign_permissions.
    now destruct (Dict.contains k groups). }
  split; [exact Hc|]. split; [|split; [|split]].
  - intros k. rewrite <- !contains_keys. now rewrite Hc.
  - apply NoDup_keys_assign_permissions.
  - unfold print_groups, Dict.items. now rewrite print_groups_keys.
  - unfold print_groups, Dict.items. apply print_groups_inv; [constructor|].
    intros g' k members Hin. simpl.
    assert (Hk : Dict.contains k groups = true).
    { apply contains_keys. apply (in_map fst) in Hin. exact Hin. }
    unfold Dict.get_default. rewrite get_assign_permissions, Hk.
    split; [apply tier_of_not_fallback | reflexivity].
Qed.

(** ** Adding a user *)

Lemma truthy_nonempty s : s <> "" -> PyStr.truthy s = true.
Proof. destruct s; [contradiction | reflexivity]. Qed.


Lemma add_user_interactive_accepts next_uid users groups w n d r c rest :
  stdin w = n :: d :: r :: c :: rest ->
  PyStr.strip n <> "" ->
  let u := User_init (next_oid w) next_uid (PyStr.strip n)
                     (PyStr.or_else (PyStr.strip d) "unknown")
                     (PyStr.or_else (PyStr.strip r) "staff")
                     (PyStr.or_else (PyStr.strip c) "low") in
  add_user_interactive next_uid users groups w
  = Ok (Some u, users ++ [u],
        if Dict.contains (attr_tuple u) groups
        then Dict.alter (fun members => members ++ [u]) (attr_tuple u) groups
        else Dict.setitem (attr_tuple u) [u] groups)
       (mkWorld rest (S (next_oid w)) (files w)).
Proof.
  intros Hin Hname u. unfold add_user_interactive, bind, input.
  rewrite Hin. rewrite (truthy_nonempty _ Hname). reflexivity.
Qed.




(** C4. With a name that is not empty after trimming and department, role
    and clearance that are, [add_user_interactive] builds the user with
    department "unknown", role "staff" and clearance "low", puts it at the
    end of the user list and, when the grouping has no key
    ("unknown", "staff", "low"), adds the group of that key with the new
    user as its only member. *)
Theorem add_user_defaults
    (next_uid : Z) (users : list User) (groups : Groups) (w : World)
    (n d r c : string) (rest : list string) :
  stdin w = n :: d :: r :: c :: rest ->
  PyStr.strip n <> "" ->
  PyStr.strip d = "" -> PyStr.strip r = "" -> PyStr.strip c = "" ->
  let u := mkUser (next_oid w) next_uid (PyStr.strip n)
                  "unknown" "staff" "low" in
  let key := ("unknown", "staff", "low") in
  exists groups',
    add_user_interactive next_uid users groups w
    = Ok (Some u, users ++ [u], groups')
         (mkWorld rest (S (next_oid w)) (files w))
    /\ (Dict.contains key groups = false ->
        groups' = groups ++ [(key, [u])]
        /\ Dict.get key groups' = Some [u]).
Proof.
  intros Hin Hname Hd Hr Hc u key.
  rewrite (add_user_interactive_accepts _ _ _ _ _ _ _ _ _ Hin Hname).
  rewrite Hd, Hr, Hc. cbv zeta.
  change (User_init (next_oid w) next_uid (PyStr.strip n)
            (PyStr.or_else "" "unknown") (PyStr.or_else "" "staff")
            (PyStr.or_else "" "low")) with u.
  change (attr_tuple u) with key.
  exists (if Dict.contains key groups
          then Dict.alter (fun members => members ++ [u]) key groups
          else Dict.setitem key [u] groups).
  split; [reflexivity|].
  intros Hnew. rewrite Hnew. split.
  - now apply setitem_absent.
  - rewrite get_setitem. reflexivity.
Qed.

Lemma add_user_defaults_witness :
  let w := mkWorld ["New Guy"; ""; ""; ""] 8 demo_fs in
  let u := mkUser 8 9 "New Guy" "unknown" "staff" "low" in
  exists groups',
    add_user_interactive 9 (s_users demo_session) (s_groups demo_session) w
    = Ok (Some u, s_users demo_session ++ [u], groups') (mkWorld [] 9 demo_fs)
    /\ groups' = s_groups demo_session ++ [(("unknown", "staff", "low"), [u])].
Proof.
  cbv zeta.
  destruct (add_user_defaults 9 (s_users demo_session) (s_groups demo_session)
              (mkWorld ["New Guy"; ""; ""; ""] 8 demo_fs)
              "New Guy" "" "" "" [] eq_refl)
    as [groups' [Hrun Hnew]]; try reflexivity; [discriminate|].
  exists groups'. split; [exact Hrun|].
  now destruct (Hnew eq_refl).
Defined.

(** C5, as stated, fails.  The session after [main_setup] has no tier for
    the key ("unknown", "staff", "low"); after the add of "New Guy" with
    empty department, role and clearance, and with no recompute in
    between, the permission mapping of the session has changed: it holds
    "Level 1 Access" under that key. *)
Lemma add_user_keeps_permissions_counterexample :
  let w := mkWorld ["New Guy"; ""; ""; ""] 8 demo_fs in
  let key := ("unknown", "staff", "low") in
  exists s' w',
    menu_add_user demo_session w = Ok s' w'
    /\ menu_turn demo_session (mkWorld ["3"; "New Guy"; ""; ""; ""] 8 demo_fs)
       = Ok (Some s') w'
    /\ List.length (s_users s') = S (List.length (s_users demo_session))
    /\ Dict.get key (s_perms demo_session) = None
    /\ Dict.get key (s_perms s') = Some "Level 1 Access"
    /\ s_perms s' <> s_perms demo_session.
Proof.
  cbv zeta. eexists. eexists.
  split; [vm_compute; reflexivity|].
  split; [reflexivity|].
  split; [reflexivity|]. split; [reflexivity|]. split; [reflexivity|].
  intros Heq. apply (f_equal (@List.length _)) in Heq.
  vm_compute in Heq. discriminate.
Qed.

(** C5, amended.  A successful add puts the new user at the end of the
    user list and updates the grouping in place of a rebuild: the group
    under the user's key gains the user as its last member (a key not yet
    present starts a group at the end of the mapping), and every other
    group stays as it was.  The menu then computes the permission mapping
    again from the updated grouping, so the key of the new user has its
    tier at once. *)
Theorem add_user_refreshes_permissions
    (s : Session) (w : World) (n d r c : string) (rest : list string) :
  stdin w = n :: d :: r :: c :: rest ->
  PyStr.strip n <> "" ->
  exists u s',
    menu_add_user s w = Ok s' (mkWorld rest (S (next_oid w)) (files w))
    /\ (oid u = next_oid w /\ uid u = s_next_uid s /\ name u = PyStr.strip n)
    /\ s_users s' = s_users s ++ [u]
    /\ s_next_uid s' = (s_next_uid s + 1)%Z
    /\ Dict.get (attr_tuple u) (s_groups s')
       = Some (Dict.get_default (attr_tuple u) [] (s_groups s) ++ [u])
    /\ (forall k, k <> attr_tuple u ->
          Dict.get k (s_groups s') = Dict.get k (s_groups s))
    /\ Dict.keys (s_groups s')
       = (if Dict.contains (attr_tuple u) (s_groups s)
          then Dict.keys (s_groups s)
          else Dict.keys (s_groups s) ++ [attr_tuple u])
    /\ s_perms s' = assign_permissions (s_groups s')
    /\ (exists tier, Dict.get (attr_tuple u) (s_perms s') = Some tier).
Proof.
  intros Hin Hname.
  pose (u := User_init (next_oid w) (s_next_uid s) (PyStr.strip n)
                       (PyStr.or_else (PyStr.strip d) "unknown")
                       (PyStr.or_else (PyStr.strip r) "staff")
                       (PyStr.or_else (PyStr.strip c) "low")).
  pose (groups' :=
          if Dict.contains (attr_tuple u) (s_groups s)
          then Dict.alter (fun members => members ++ [u]) (attr_tuple u)
                          (s_groups s)
          else Dict.setitem (attr_tuple u) [u] (s_groups s)).
  exists u.
  exists (mkSession (s_users s ++ [u]) groups' (assign_permissions groups')
                    (s_next_uid s + 1)).
  assert (Hget : Dict.get (attr_tuple u) groups'
                 = Some (Dict.get_default (attr_tuple u) [] (s_groups s) ++ [u])).
  { unfold groups', Dict.get_default, Dict.contains.
    destruct (Dict.get (attr_tuple u) (s_groups s)) as [members|] eqn:E.
    - rewrite get_alter, E. fold_key_eqb. now rewrite Key_eqb_refl.
    - rewrite get_setitem. fold_key_eqb. now rewrite Key_eqb_refl. }
  split.
  { unfold menu_add_user, bind.
    rewrite (add_user_interactive_accepts _ _ _ _ _ _ _ _ _ Hin Hname).
    reflexivity. }
  split; [repeat split|]. split; [reflexivity|]. split; [reflexivity|].
  split; [exact Hget|]. split; [|split; [|split]].
  - intros k Hk. simpl. unfold groups'.
    assert (Hne : Key_eqb (attr_tuple u) k = false)
      by (apply Key_eqb_neq; congruence).
    destruct (Dict.contains (attr_tuple u) (s_groups s)).
    + rewrite get_alter. fold_key_eqb. now rewrite Hne.
    + rewrite get_setitem. fold_key_eqb. now rewrite Hne.
  - simpl. unfold groups'.
    destruct (Dict.contains (attr_tuple u) (s_groups s)) eqn:E.
    + apply keys_alter.
    + rewrite keys_setitem. now rewrite E.
  - reflexivity.
  - simpl. rewrite get_assign_permissions. unfold Dict.contains.
    rewrite Hget. eexists. reflexivity.
Qed.

Lemma add_user_refreshes_permissions_witness :
  let w := mkWorld ["Ivy"; "HR"; "Manager"; "High"] 8 demo_fs in
  exists u s',
    menu_add_user demo_session w = Ok s' (mkWorld [] 9 demo_fs)
    /\ s_users s' = s_users demo_session ++ [u]
    /\ s_perms s' = assign_permissions (s_groups s').
Proof.
  cbv zeta.
  destruct (add_user_refreshes_permissions
              demo_session (mkWorld ["Ivy"; "HR"; "Manager"; "High"] 8 demo_fs)
              "Ivy" "HR" "Manager" "High" [] eq_refl)
    as (u & s' & Hrun & _ & Husers & _ & _ & _ & _ & Hperms & _);
    [discriminate|].
  exists u, s'. repeat split; assumption.
Defined.

(** ** Recompute *)

(** C6. Recomputing twice in a row gives the session that recomputing once
    gives: the grouping is [build_classes] of the user list and the
    permission mapping is [assign_permissions] of that grouping both times,
    and the user list is not touched.  Two menu turns with choice 6 end in
    the same session as one. *)
Theorem recompute_idempotent (s : Session) :
  menu_recompute (menu_recompute s) = menu_recompute s
  /\ s_users (menu_recompute s) = s_users s
  /\ s_groups (menu_recompute s) = build_classes (s_users s)
  /\ s_perms (menu_recompute s)
     = assign_permissions (build_classes (s_users s))
  /\ (forall rest o f,
        menu_turns 2 s (mkWorld ("6" :: "6" :: rest) o f)
        = Ok (Some (menu_recompute s)) (mkWorld rest o f)
        /\ menu_turns 1 s (mkWorld ("6" :: rest) o f)
           = Ok (Some (menu_recompute s)) (mkWorld rest o f)).
Proof.
  split; [reflexivity|]. split; [reflexivity|]. split; [reflexivity|].
  split; [reflexivity|]. intros rest o f. split; reflexivity.
Qed.

(** ** Export *)

Lemma rows_of_group k (members : list User) : forall w,
  fold_left (fun w u => writerow w (data_row k u)) members w
  = w ++ map (data_row k) members.
Proof.
  induction members as [|u members IH]; intros w; simpl.
  - now rewrite app_nil_r.
  - rewrite IH. unfold writerow. now rewrite <- app_assoc.
Qed.

Lemma rows_of_groups (groups : Groups) : forall w,
  fold_left
    (fun w '(key, members) =>
       let '(dept, role, clr) := key in
       fold_left
         (fun w u => writerow w [CStr dept; CStr role; CStr clr;
                                 CInt (uid u); CStr (name u)])
         members w)
    groups w
  = w ++ map (fun '(k, u) => data_row k u) (memberships groups).
Proof.
  induction groups as [|[[[dept role] clr] members] groups IH]; intros w.
  - simpl. now rewrite app_nil_r.
  - cbn [fold_left memberships flat_map]. rewrite IH.
    change (fun w0 u => writerow w0 [CStr dept; CStr role; CStr clr;
                                     CInt (uid u); CStr (name u)])
      with (fun w0 u => writerow w0 (data_row (dept, role, clr) u)).
    rewrite rows_of_group, map_app, map_map, <- app_assoc. reflexivity.
Qed.




Lemma memberships_build_classes users :
  Forall (fun '(k, u) => k = attr_tuple u) (memberships (build_classes users)).
Proof.
  apply Forall_forall. intros [k u] Hin. unfold memberships in Hin.
  apply in_flat_map in Hin. destruct Hin as [[k' members] [Hg Hu]].
  apply in_map_iff in Hu. destruct Hu as [v [[= -> ->] Hv]].
  apply entry_build_classes in Hg. destruct Hg as [-> _].
  apply filter_In in Hv. destruct Hv as [_ Hk].
  symmetry. now apply has_key_eq.
Qed.




(** * Further properties of the code *)

(** ** Normalisation of the fields *)

Lemma isspace_lower_char c : PyStr.isspace (PyStr.lower_char c) = PyStr.isspace c.
Proof.
  destruct c as [[] [] [] [] [] [] [] []]; vm_compute; reflexivity.
Qed.

Lemma lower_char_idem c :
  PyStr.lower_char (PyStr.lower_char c) = PyStr.lower_char c.
Proof.
  destruct c as [[] [] [] [] [] [] [] []]; vm_compute; reflexivity.
Qed.

Lemma lower_idem s : PyStr.lower (PyStr.lower s) = PyStr.lower s.
Proof.
  induction s as [|c s IH]; simpl; [reflexivity|].
  now rewrite lower_char_idem, IH.
Qed.

Lemma lower_empty s : PyStr.lower s = "" -> s = "".
Proof. destruct s; [reflexivity | discriminate]. Qed.

Lemma lstrip_lower s : PyStr.lstrip (PyStr.lower s) = PyStr.lower (PyStr.lstrip s).
Proof.
  induction s as [|c s IH]; simpl; [reflexivity|].
  rewrite isspace_lower_char. now destruct (PyStr.isspace c).
Qed.

Lemma rstrip_lower s : PyStr.rstrip (PyStr.lower s) = PyStr.lower (PyStr.rstrip s).
Proof.
  induction s as [|c s IH]; simpl; [reflexivity|].
  rewrite IH, isspace_lower_char.
  destruct (PyStr.rstrip s); simpl; [|reflexivity].
  now destruct (PyStr.isspace c).
Qed.

Lemma strip_lower s : PyStr.strip (PyStr.lower s) = PyStr.lower (PyStr.strip s).
Proof. unfold PyStr.strip. now rewrite lstrip_lower, rstrip_lower. Qed.

Lemma rstrip_idem s : PyStr.rstrip (PyStr.rstrip s) = PyStr.rstrip s.
Proof.
  induction s as [|c s IH]; simpl; [reflexivity|].
  destruct (PyStr.rstrip s) as [|a r] eqn:E.
  - destruct (PyStr.isspace c) eqn:Ec; simpl; [reflexivity|].
    now rewrite Ec.
  - change (PyStr.rstrip (String c (String a r)))
      with (match PyStr.rstrip (String a r) with
            | EmptyString =>
                if PyStr.isspace c then EmptyString else String c EmptyString
            | r0 => String c r0
            end).
    now rewrite IH.
Qed.

Lemma lstrip_starts_clean s : starts_clean (PyStr.lstrip s).
Proof.
  induction s as [|c s IH]; simpl; [exact I|].
  destruct (PyStr.isspace c) eqn:E; [exact IH | exact E].
Qed.

Lemma lstrip_clean s : starts_clean s -> PyStr.lstrip s = s.
Proof. destruct s as [|c s]; simpl; [reflexivity|]. now intros ->. Qed.

Lemma rstrip_starts_clean s : starts_clean s -> starts_clean (PyStr.rstrip s).
Proof.
  destruct s as [|c s]; simpl; [exact id|]. intros Hc.
  destruct (PyStr.rstrip s); simpl; [now rewrite Hc | exact Hc].
Qed.

Lemma strip_idem s : PyStr.strip (PyStr.strip s) = PyStr.strip s.
Proof.
  unfold PyStr.strip.
  rewrite (lstrip_clean (PyStr.rstrip (PyStr.lstrip s))).
  - apply rstrip_idem.
  - apply rstrip_starts_clean, lstrip_starts_clean.
Qed.

Lemma normalise_idem s :
  PyStr.lower (PyStr.strip (PyStr.lower (PyStr.strip s)))
  = PyStr.lower (PyStr.strip s).
Proof. now rewrite strip_lower, lower_idem, strip_idem. Qed.

Lemma strip_normalised s :
  PyStr.strip (PyStr.lower (PyStr.strip s)) = PyStr.lower (PyStr.strip s).
Proof. now rewrite strip_lower, strip_idem. Qed.

(** X1. The fields a [User] stores are fixed points of the constructor:
    a user built again from the stored department, role and clearance of
    another has the same classification key, and the stored fields are
    stable under another trim and lowercase. *)
Theorem User_init_normalisation_idempotent
    (o o' : nat) (i i' : Z) (n n' d r c : string) :
  let u := User_init o i n d r c in
  attr_tuple (User_init o' i' n' (dept u) (role u) (clearance u))
  = attr_tuple u
  /\ (PyStr.strip (dept u), PyStr.strip (role u), PyStr.strip (clearance u))
     = attr_tuple u
  /\ (PyStr.lower (dept u), PyStr.lower (role u), PyStr.lower (clearance u))
     = attr_tuple u.
Proof.
  cbv zeta. unfold attr_tuple, User_init. cbn [dept role clearance].
  rewrite (normalise_idem d), (normalise_idem r), (normalise_idem c).
  split; [reflexivity|]. split.
  - now rewrite (strip_normalised d), (strip_normalised r),
      (strip_normalised c).
  - now rewrite (lower_idem (PyStr.strip d)), (lower_idem (PyStr.strip r)),
      (lower_idem (PyStr.strip c)).
Qed.

(** ** Adding a user, case by case *)

(** The run of [add_user_interactive], by what the console holds. *)
Lemma add_user_interactive_cases next_uid users groups w :
  match stdin w with
  | [] => add_user_interactive next_uid users groups w = Raise EOFError
  | n :: rest =>
      if PyStr.truthy (PyStr.strip n) then
        match rest with
        | d :: r :: c :: rest' =>
            let u := User_init (next_oid w) next_uid (PyStr.strip n)
                       (PyStr.or_else (PyStr.strip d) "unknown")
                       (PyStr.or_else (PyStr.strip r) "staff")
                       (PyStr.or_else (PyStr.strip c) "low") in
            add_user_interactive next_uid users groups w
            = Ok (Some u, users ++ [u],
                  if Dict.contains (attr_tuple u) groups
                  then Dict.alter (fun members => members ++ [u])
                                  (attr_tuple u) groups
                  else Dict.setitem (attr_tuple u) [u] groups)
                 (mkWorld rest' (S (next_oid w)) (files w))
        | _ => add_user_interactive next_uid users groups w = Raise EOFError
        end
      else add_user_interactive next_uid users groups w
           = Ok (None, users, groups) (mkWorld rest (next_oid w) (files w))
  end.
Proof.
  unfold add_user_interactive, bind, input.
  destruct (stdin w) as [|n rest]; [reflexivity|].
  destruct (PyStr.truthy (PyStr.strip n)); simpl; [|reflexivity].
  destruct rest as [|d [|r [|c rest']]]; reflexivity.
Qed.

Lemma or_else_nonempty s default :
  default <> "" -> PyStr.or_else s default <> "".
Proof.
  intros Hd. unfold PyStr.or_else. destruct s; simpl; [exact Hd | discriminate].
Qed.

Lemma normalise_or_else_nonempty s default :
  PyStr.lower (PyStr.strip default) <> "" ->
  PyStr.lower (PyStr.strip (PyStr.or_else (PyStr.strip s) default)) <> "".
Proof.
  intros Hd. unfold PyStr.or_else.
  destruct (PyStr.strip s) as [|a t] eqn:E; simpl PyStr.truthy; cbv iota;
    [exact Hd|].
  rewrite <- E, strip_idem, E. intros Hl. apply lower_empty in Hl.
  discriminate.
Qed.

(** X2. A user that [add_user_interactive] returns has the next id, a name
    that is trimmed and not empty, and a department, a role and a clearance
    none of which is empty: a blank answer is replaced by "unknown",
    "staff" or "low". *)
Theorem add_user_interactive_fields_filled
    (next_uid : Z) (users users' : list User) (groups groups' : Groups)
    (w w' : World) (u : User) :
  add_user_interactive next_uid users groups w
  = Ok (Some u, users', groups') w' ->
  uid u = next_uid
  /\ name u <> "" /\ PyStr.strip (name u) = name u
  /\ dept u <> "" /\ role u <> "" /\ clearance u <> "".
Proof.
  intros Hrun. pose proof (add_user_interactive_cases next_uid users groups w)
    as Hc.
  destruct (stdin w) as [|n rest]; [congruence|].
  destruct (PyStr.truthy (PyStr.strip n)) eqn:Hn; [|congruence].
  destruct rest as [|d [|r [|c rest']]]; try congruence.
  cbv zeta in Hc. rewrite Hc in Hrun. injection Hrun as <- _ _ _.
  simpl. split; [reflexivity|]. split; [|split; [|split; [|split]]].
  - intros E. rewrite E in Hn. discriminate.
  - apply strip_idem.
  - apply normalise_or_else_nonempty. discriminate.
  - apply normalise_or_else_nonempty. discriminate.
  - apply normalise_or_else_nonempty. discriminate.
Qed.

Lemma add_user_interactive_fields_filled_witness :
  let u := mkUser 8 9 "Ivy" "unknown" "manager" "low" in
  dept u <> "" /\ role u <> "" /\ clearance u <> "".
Proof.
  cbv zeta.
  assert (Hrun : add_user_interactive 9 (s_users demo_session)
                   (s_groups demo_session)
                   (mkWorld ["  Ivy "; " "; "Manager"; ""] 8 demo_fs)
                 = Ok (Some (mkUser 8 9 "Ivy" "unknown" "manager" "low"),
                       s_users demo_session
                       ++ [mkUser 8 9 "Ivy" "unknown" "manager" "low"],
                       s_groups demo_session
                       ++ [(("unknown", "manager", "low"),
                            [mkUser 8 9 "Ivy" "unknown" "manager" "low"])])
                      (mkWorld [] 9 demo_fs))
    by (vm_compute; reflexivity).
  destruct (add_user_interactive_fields_filled _ _ _ _ _ _ _ _ Hrun)
    as (_ & _ & _ & Hd & Hr & Hc).
  repeat split; assumption.
Defined.

(** X4. [add_user_interactive] fails only with [EOFError], and exactly when
    the console has no line for the name, or has a name that is not blank
    and fewer than three lines after it.  A blank name needs no further
    line. *)
Theorem add_user_interactive_eof
    (next_uid : Z) (users : list User) (groups : Groups) (w : World) :
  (forall e, add_user_interactive next_uid users groups w = Raise e ->
             e = EOFError)
  /\ (add_user_interactive next_uid users groups w = Raise EOFError <->
      stdin w = []
      \/ exists n rest, stdin w = n :: rest /\ PyStr.strip n <> ""
                        /\ List.length rest < 3).
Proof.
  pose proof (add_user_interactive_cases next_uid users groups w) as Hc.
  destruct (stdin w) as [|n rest].
  - split; [intros e He; congruence|].
    split; [now left | intros _; exact Hc].
  - destruct (PyStr.truthy (PyStr.strip n)) eqn:Hn.
    + assert (Hne : PyStr.strip n <> "")
        by (intros E; rewrite E in Hn; discriminate).
      destruct rest as [|d [|r [|c rest']]];
        try (split; [intros e He; congruence|];
             split; [intros _; right; exists n; eexists;
                     split; [reflexivity|]; split; [exact Hne|simpl; lia]
                    | intros _; exact Hc]).
      cbv zeta in Hc. split; [intros e He; congruence|].
      split; [congruence|].
      intros [Hnil | (n0 & rest0 & [= <- <-] & _ & Hlen)];
        [discriminate | simpl in Hlen; lia].
    + split; [intros e He; congruence|].
      split; [congruence|].
      intros [Hnil | (n0 & rest0 & [= <- <-] & Hne & _)]; [discriminate|].
      destruct (PyStr.strip n); [contradiction | discriminate].
Qed.

(** ** The incremental update and the rebuild *)

Section MoreDictFacts.
Context {K V : Type} `{PyKeyOk K}.
Implicit Types (k : K) (v : V) (d : list (K * V)).

Lemma alter_last_absent f k v d :
  Dict.contains k d = false ->
  Dict.alter f k (d ++ [(k, v)]) = d ++ [(k, f v)].
Proof.
  unfold Dict.contains.
  induction d as [|[k' v'] d IH]; simpl.
  - intros _. now rewrite key_eqb_refl.
  - destruct (key_eqb k' k); [discriminate|].
    intros Hc. now rewrite IH.
Qed.

Lemma length_setitem k v d :
  List.length (Dict.setitem k v d)
  = if Dict.contains k d then List.length d else S (List.length d).
Proof.
  destruct (Dict.contains k d) eqn:E.
  - revert E. unfold Dict.contains.
    induction d as [|[k' v'] d IH]; simpl; [discriminate|].
    destruct (key_eqb k' k); simpl; [reflexivity|].
    intros Hc. now rewrite IH.
  - rewrite (setitem_absent _ _ _ E), length_app. simpl. lia.
Qed.



End MoreDictFacts.

Lemma incremental_is_append k u (groups : Groups) :
  (if Dict.contains k groups
   then Dict.alter (fun members => members ++ [u]) k groups
   else Dict.setitem k [u] groups)
  = defaultdict_append k u groups.
Proof.
  unfold defaultdict_append, Dict.missing.
  destruct (Dict.contains k groups) eqn:E; [reflexivity|].
  rewrite !(setitem_absent _ _ _ E).
  now rewrite (alter_last_absent _ _ _ _ E).
Qed.

(** X3. The update [add_user_interactive] makes to a grouping that was
    built from the user list is the rebuild: after the call, accepted or
    rejected, the grouping it leaves is [build_classes] of the user list it
    leaves. *)
Theorem add_user_interactive_keeps_grouping_built
    (next_uid : Z) (users users' : list User) (groups' : Groups)
    (w w' : World) (r : option User) :
  add_user_interactive next_uid users (build_classes users) w
  = Ok (r, users', groups') w' ->
  groups' = build_classes users'.
Proof.
  intros Hrun.
  pose proof (add_user_interactive_cases next_uid users
                (build_classes users) w) as Hc.
  destruct (stdin w) as [|n rest]; [congruence|].
  destruct (PyStr.truthy (PyStr.strip n)).
  - destruct rest as [|d [|r0 [|c rest']]]; try congruence.
    cbv zeta in Hc. rewrite Hc in Hrun. injection Hrun as _ <- <- _.
    now rewrite incremental_is_append, build_classes_snoc.
  - rewrite Hc in Hrun. now injection Hrun as _ <- <- _.
Qed.

Lemma add_user_interactive_keeps_grouping_built_witness :
  let u := mkUser 8 9 "Ivy" "hr" "manager" "high" in
  Dict.alter (fun members => members ++ [u]) ("hr", "manager", "high")
             (s_groups demo_session)
  = build_classes (s_users demo_session ++ [u]).
Proof.
  cbv zeta.
  apply (add_user_interactive_keeps_grouping_built
           9 (s_users demo_session) _ _
           (mkWorld ["Ivy"; "HR"; "Manager"; "High"] 8 demo_fs) (mkWorld [] 9 demo_fs)
           (Some (mkUser 8 9 "Ivy" "hr" "manager" "high"))).
  reflexivity.
Defined.

(** ** The reflexivity check on any grouping *)

Lemma check_reflexive_forallb users (groups : Groups) :
  check_reflexive users groups
  = forallb (fun u => py_in u (Dict.get_default (attr_tuple u) [] groups))
            users.
Proof.
  induction users as [|u users IH]; simpl; [reflexivity|].
  rewrite IH. now destruct (py_in u _).
Qed.

(** X5. [check_reflexive] answers false exactly when some user of the list
    is, as an object, not among the members stored under its own key (a
    key that is missing counts as an empty group); with no users it
    answers true whatever the grouping. *)
Theorem check_reflexive_false_iff (users : list User) (groups : Groups) :
  (check_reflexive users groups = false <->
   exists u, In u users
             /\ forall v, In v (Dict.get_default (attr_tuple u) [] groups) ->
                          oid v <> oid u)
  /\ check_reflexive [] groups = true.
Proof.
  split; [|reflexivity].
  rewrite check_reflexive_forallb. split.
  - intros Hf.
    destruct (forallb _ users) eqn:E in Hf; [discriminate|]. clear Hf.
    revert E. induction users as [|u users IH]; simpl; [discriminate|].
    destruct (py_in u _) eqn:Ep; simpl.
    + intros E. destruct (IH E) as [x [Hx Hm]]. exists x. split; [now right|].
      exact Hm.
    + intros _. exists u. split; [now left|].
      intros v Hv Heq. unfold py_in in Ep.
      assert (Ht : existsb (fun v0 => Nat.eqb (oid v0) (oid u))
                     (Dict.get_default (attr_tuple u) [] groups) = true).
      { apply existsb_exists. exists v. split; [exact Hv|].
        now apply Nat.eqb_eq. }
      congruence.
  - intros [u [Hu Hm]].
    destruct (forallb _ users) eqn:E; [|reflexivity]. exfalso.
    rewrite forallb_forall in E. specialize (E u Hu).
    unfold py_in in E. apply existsb_exists in E.
    destruct E as [v [Hv Heq]]. apply Nat.eqb_eq in Heq.
    exact (Hm v Hv Heq).
Qed.

Lemma members_from_users users k members :
  Dict.get k (build_classes users) = Some members -> incl members users.
Proof.
  rewrite get_build_classes.
  destruct (filter (has_key k) users) as [|x l] eqn:E; [discriminate|].
  intros [= <-] v Hv. rewrite <- E in Hv. now apply filter_In in Hv.
Qed.

(** X6. A grouping that was not brought up to date is caught: when a user
    whose identity none of the grouped users has is put on the user list
    and the grouping is still the one built before, [check_reflexive]
    answers false. *)
Theorem check_reflexive_detects_stale_grouping
    (users : list User) (u : User) :
  (forall v, In v users -> oid v <> oid u) ->
  check_reflexive (users ++ [u]) (build_classes users) = false.
Proof.
  intros Hfresh.
  rewrite check_reflexive_forallb, forallb_app. simpl.
  assert (Hout : py_in u (Dict.get_default (attr_tuple u) []
                            (build_classes users)) = false).
  { unfold py_in, Dict.get_default.
    destruct (Dict.get (attr_tuple u) (build_classes users)) as [members|] eqn:E;
      [|reflexivity].
    apply members_from_users in E.
    destruct (existsb _ members) eqn:Ex; [|reflexivity].
    apply existsb_exists in Ex. destruct Ex as [v [Hv Heq]].
    apply Nat.eqb_eq in Heq. exfalso. exact (Hfresh v (E v Hv) Heq). }
  rewrite Hout. simpl. apply andb_false_r.
Qed.

Lemma check_reflexive_detects_stale_grouping_witness :
  check_reflexive
    (s_users demo_session ++ [mkUser 8 9 "Ivy" "hr" "manager" "high"])
    (build_classes (s_users demo_session)) = false.
Proof.
  apply check_reflexive_detects_stale_grouping.
  intros v Hv. simpl in Hv.
  repeat (destruct Hv as [<- | Hv]; [discriminate|]). contradiction.
Defined.

(** X7. After [add_user_interactive] on a grouping built from the user
    list, accepted or rejected, [check_reflexive] on the user list and the
    grouping it leaves answers true. *)
Theorem add_user_interactive_keeps_reflexive
    (next_uid : Z) (users users' : list User) (groups' : Groups)
    (w w' : World) (r : option User) :
  add_user_interactive next_uid users (build_classes users) w
  = Ok (r, users', groups') w' ->
  check_reflexive users' groups' = true.
Proof.
  intros Hrun.
  pose proof (add_user_interactive_cases next_uid users
                (build_classes users) w) as Hc.
  destruct (stdin w) as [|n rest]; [congruence|].
  destruct (PyStr.truthy (PyStr.strip n)).
  - destruct rest as [|d [|r0 [|c rest']]]; try congruence.
    cbv zeta in Hc. rewrite Hc in Hrun. injection Hrun as _ <- <- _.
    rewrite incremental_is_append, <- build_classes_snoc.
    apply check_reflexive_incl, incl_refl.
  - rewrite Hc in Hrun. injection Hrun as _ <- <- _.
    apply check_reflexive_incl, incl_refl.
Qed.

Lemma add_user_interactive_keeps_reflexive_witness :
  let u := mkUser 8 9 "Ivy" "hr" "manager" "high" in
  check_reflexive
    (s_users demo_session ++ [u])
    (Dict.alter (fun members => members ++ [u]) ("hr", "manager", "high")
                (s_groups demo_session)) = true.
Proof.
  cbv zeta.
  apply (add_user_interactive_keeps_reflexive
           9 (s_users demo_session) _ _
           (mkWorld ["Ivy"; "HR"; "Manager"; "High"] 8 demo_fs) (mkWorld [] 9 demo_fs)
           (Some (mkUser 8 9 "Ivy" "hr" "manager" "high"))).
  reflexivity.
Defined.

(** ** More on the permission assigner *)

Lemma keys_assign_fold (ks : list Key) : forall (perms : Perms),
  NoDup ks ->
  (forall k, In k ks -> ~ In k (Dict.keys perms)) ->
  Dict.keys (fold_left
               (fun perms key =>
                  Dict.setitem key (tier_of (key_clearance key)) perms)
               ks perms)
  = Dict.keys perms ++ ks.
Proof.
  induction ks as [|k0 ks IH]; intros perms Hnd Hout; simpl.
  - now rewrite app_nil_r.
  - inversion Hnd as [|? ? Hk0 Hnd']; subst.
    assert (Hc : Dict.contains k0 perms = false).
    { apply contains_false_keys. apply Hout. now left. }
    rewrite IH; [| exact Hnd' |].
    + rewrite keys_setitem, Hc, <- app_assoc. reflexivity.
    + intros k Hk. rewrite keys_setitem, Hc. intros Hin.
      apply in_app_or in Hin. destruct Hin as [Hin | [<- | []]].
      * apply (Hout k); [now right | exact Hin].
      * contradiction.
Qed.

(** X8. The permission mapping lists the keys in the order of the
    grouping: for a grouping whose keys are pairwise different, as those of
    a dictionary are, the keys of [assign_permissions] are the keys of the
    grouping, in the same order. *)
Theorem assign_permissions_keeps_key_order (groups : Groups) :
  NoDup (Dict.keys groups) ->
  Dict.keys (assign_permissions groups) = Dict.keys groups.
Proof.
  intros Hnd. rewrite assign_permissions_tier_of.
  rewrite keys_assign_fold; [reflexivity | exact Hnd |].
  intros k _ [].
Qed.

Lemma assign_permissions_keeps_key_order_witness :
  Dict.keys (assign_permissions (s_groups demo_session))
  = [("engineering", "developer", "high"); ("engineering", "tester", "medium");
     ("hr", "manager", "high"); ("finance", "analyst", "low")].
Proof.
  rewrite (assign_permissions_keeps_key_order (s_groups demo_session));
    [reflexivity|].
  vm_compute. repeat constructor; simpl; intuition discriminate.
Defined.

(** X9. The tier of a key depends on its clearance alone: two keys with
    the same clearance get the same tier, whatever their departments and
    roles, the members of their groups and the other groups of the
    groupings they stand in. *)
Theorem tier_depends_on_clearance_only
    (groups1 groups2 : Groups) (k1 k2 : Key) :
  Dict.contains k1 groups1 = true ->
  Dict.contains k2 groups2 = true ->
  key_clearance k1 = key_clearance k2 ->
  Dict.get k1 (assign_permissions groups1)
  = Dict.get k2 (assign_permissions groups2).
Proof.
  intros H1 H2 Hclr. rewrite !get_assign_permissions, H1, H2.
  now rewrite Hclr.
Qed.

Lemma tier_depends_on_clearance_only_witness :
  Dict.get ("engineering", "developer", "high")
           (assign_permissions (s_groups demo_session))
  = Dict.get ("hr", "manager", "high")
             (assign_permissions
                [(("hr", "manager", "high"), []); (("x", "y", "low"), [])]).
Proof.
  apply tier_depends_on_clearance_only; reflexivity.
Defined.

(** ** What [print_groups] shows *)

Lemma print_groups_numbers (perms : Perms) : forall (l : Groups) g out,
  map block_number (snd (fold_left
      (fun '(g, out) '(key, members) =>
         let perm_text :=
           Dict.get_default key "Level ? (not assigned)" perms in
         (S g, out ++ [mkBlock g key perm_text members]))
      l (g, out)))
  = map block_number out ++ seq g (List.length l).
Proof.
  induction l as [|[k members] l IH]; intros g out; simpl.
  - now rewrite app_nil_r.
  - rewrite IH, map_app. simpl. now rewrite <- app_assoc.
Qed.

Lemma print_groups_entries (perms : Perms) : forall (l : Groups) g out,
  map (fun b => (block_key b, block_members b)) (snd (fold_left
      (fun '(g, out) '(key, members) =>
         let perm_text :=
           Dict.get_default key "Level ? (not assigned)" perms in
         (S g, out ++ [mkBlock g key perm_text members]))
      l (g, out)))
  = map (fun b => (block_key b, block_members b)) out ++ l.
Proof.
  induction l as [|[k members] l IH]; intros g out; simpl.
  - now rewrite app_nil_r.
  - rewrite IH, map_app. simpl. now rewrite <- app_assoc.
Qed.

(** X10. [print_groups] shows the groups in the order of the grouping,
    each once, with its key and members, numbered 1, 2, 3, ...  A group
    whose key the permission mapping lacks is shown with
    "Level ? (not assigned)", any other with the text stored under its
    key. *)
Theorem print_groups_blocks (groups : Groups) (perms : Perms) :
  let blocks := print_groups groups perms in
  map block_number blocks = seq 1 (List.length groups)
  /\ map (fun b => (block_key b, block_members b)) blocks = groups
  /\ Forall (fun b =>
              match Dict.get (block_key b) perms with
              | Some text => block_perm_text b = text
              | None => block_perm_text b = "Level ? (not assigned)"
              end) blocks.
Proof.
  cbv zeta. unfold print_groups, Dict.items.
  split; [now rewrite print_groups_numbers|].
  split; [now rewrite print_groups_entries|].
  apply print_groups_inv; [constructor|].
  intros g' k members _. simpl. unfold Dict.get_default.
  now destruct (Dict.get k perms).
Qed.

(** ** The export of a classified user list *)

Lemma map_snd_memberships (groups : Groups) :
  map snd (memberships groups) = List.concat (Dict.values groups).
Proof.
  induction groups as [|[k members] groups IH]; [reflexivity|].
  change (memberships ((k, members) :: groups))
    with (map (fun u => (k, u)) members ++ memberships groups).
  rewrite map_app, map_map, IH. simpl. now rewrite map_id.
Qed.

(** X11. Exporting the grouping built from a user list writes, after the
    header, one row for every user of the list and no other row: the rows
    are, up to their order, the users' own department, role and clearance
    with their id and name. *)
Theorem export_one_row_per_user (users : list User) :
  Permutation
    (tl (save_groups_csv_rows (build_classes users)))
    (map (fun u => data_row (attr_tuple u) u) users).
Proof.
  unfold save_groups_csv_rows, Dict.items. rewrite rows_of_groups. simpl.
  assert (Hrows : map (fun '(k, u) => data_row k u)
                      (memberships (build_classes users))
                  = map (fun u => data_row (attr_tuple u) u)
                        (map snd (memberships (build_classes users)))).
  { rewrite map_map. apply map_ext_in. intros [k u] Hin. simpl.
    pose proof (memberships_build_classes users) as Hall.
    rewrite Forall_forall in Hall. now rewrite (Hall (k, u) Hin). }
  rewrite Hrows, map_snd_memberships.
  apply Permutation_map, concat_values_build_classes.
Qed.



(** ** The menu loop, turn by turn *)

Lemma menu_add_user_inv s w s' w' :
  menu_add_user s w = Ok s' w' ->
  (exists n rest,
     stdin w = n :: rest /\ PyStr.strip n = ""
     /\ s' = s /\ w' = mkWorld rest (next_oid w) (files w))
  \/ (exists n d r c rest,
        stdin w = n :: d :: r :: c :: rest /\ PyStr.strip n <> ""
        /\ let u := User_init (next_oid w) (s_next_uid s) (PyStr.strip n)
                      (PyStr.or_else (PyStr.strip d) "unknown")
                      (PyStr.or_else (PyStr.strip r) "staff")
                      (PyStr.or_else (PyStr.strip c) "low") in
           let groups' := defaultdict_append (attr_tuple u) u (s_groups s) in
           s' = mkSession (s_users s ++ [u]) groups'
                          (assign_permissions groups') (s_next_uid s + 1)
           /\ w' = mkWorld rest (S (next_oid w)) (files w)).
Proof.
  unfold menu_add_user, bind.
  pose proof (add_user_interactive_cases (s_next_uid s) (s_users s)
                (s_groups s) w) as Hc.
  destruct (stdin w) as [|n rest]; [rewrite Hc; discriminate|].
  destruct (PyStr.truthy (PyStr.strip n)) eqn:Hn.
  - destruct rest as [|d [|r [|c rest']]]; try (rewrite Hc; discriminate).
    cbv zeta in Hc. rewrite Hc, incremental_is_append. intros [= <- <-].
    right. exists n, d, r, c, rest'. split; [reflexivity|].
    split; [intros E; rewrite E in Hn; discriminate|].
    cbv zeta. split; reflexivity.
  - rewrite Hc. intros [= <- <-]. left. exists n, rest.
    split; [reflexivity|]. split; [|split; [now destruct s | reflexivity]].
    destruct (PyStr.strip n); [reflexivity | discriminate].
Qed.


Lemma menu_save_cases s w :
  match stdin w with
  | [] => menu_save s w = Raise EOFError
  | fn :: rest =>
      match fs_open (files w)
                    (PyStr.or_else (PyStr.strip fn) "groups_output.csv") with
      | inl e => menu_save s w = Raise e
      | inr path =>
          menu_save s w
          = Ok s (mkWorld rest (next_oid w)
                    (mkFS (fs_open (files w))
                          (Dict.setitem path
                             (save_groups_csv_rows (s_groups s))
                             (fs_rows (files w)))))
      end
  end.
Proof.
  unfold menu_save, save_groups_csv, write_file, bind, input.
  destruct (stdin w) as [|fn rest]; [reflexivity|]. simpl.
  destruct (fs_open (files w) _); reflexivity.
Qed.

Lemma menu_save_inv s w s' w' :
  menu_save s w = Ok s' w' ->
  exists fn rest path,
    stdin w = fn :: rest
    /\ fs_open (files w) (PyStr.or_else (PyStr.strip fn) "groups_output.csv")
       = inr path
    /\ s' = s
    /\ w' = mkWorld rest (next_oid w)
              (mkFS (fs_open (files w))
                    (Dict.setitem path (save_groups_csv_rows (s_groups s))
                                  (fs_rows (files w)))).
Proof.
  pose proof (menu_save_cases s w) as Hc.
  destruct (stdin w) as [|fn rest]; [congruence|].
  destruct (fs_open (files w) _) as [e|path] eqn:E; [congruence|].
  rewrite Hc. intros [= <- <-]. exists fn, rest, path. now repeat split.
Qed.


(** The turn, by the line read for the choice. *)
Lemma menu_turn_cases s w :
  match stdin w with
  | [] => menu_turn s w = Raise EOFError
  | line :: rest =>
      let w1 := mkWorld rest (next_oid w) (files w) in
      let choice := PyStr.strip line in
      menu_turn s w
      = if String.eqb choice "1" then Ok (Some s) w1
        else if String.eqb choice "2"
        then Ok (Some (fst (menu_show_groups s))) w1
        else if String.eqb choice "3"
        then match menu_add_user s w1 with
             | Ok s' w' => Ok (Some s') w'
             | Raise e => Raise e
             end
        else if String.eqb choice "4" then Ok (Some s) w1
        else if String.eqb choice "5"
        then match menu_save s w1 with
             | Ok s' w' => Ok (Some s') w'
             | Raise e => Raise e
             end
        else if String.eqb choice "6" then Ok (Some (menu_recompute s)) w1
        else if String.eqb choice "7" then Ok (Some s) w1
        else if String.eqb choice "8" then Ok None w1
        else Ok (Some s) w1
  end.
Proof.
  unfold menu_turn, bind, input. destruct (stdin w) as [|line rest];
    [reflexivity|]. cbv zeta.
  repeat (match goal with
          | |- context [String.eqb ?a ?b] => destruct (String.eqb a b)
          end; try reflexivity).
Qed.

(** What a turn that comes back can have been. *)
Lemma menu_turn_inv s w r w' :
  menu_turn s w = Ok r w' ->
  exists line rest,
    stdin w = line :: rest
    /\ let w1 := mkWorld rest (next_oid w) (files w) in
       let choice := PyStr.strip line in
       (~ In choice ["2"; "3"; "5"; "6"; "8"] /\ r = Some s /\ w' = w1)
       \/ (choice = "2" /\ r = Some (fst (menu_show_groups s)) /\ w' = w1)
       \/ (choice = "3" /\ exists s', r = Some s'
                                      /\ menu_add_user s w1 = Ok s' w')
       \/ (choice = "5" /\ r = Some s /\ menu_save s w1 = Ok s w')
       \/ (choice = "6" /\ r = Some (menu_recompute s) /\ w' = w1)
       \/ (choice = "8" /\ r = None /\ w' = w1).
Proof.
  pose proof (menu_turn_cases s w) as Hc.
  destruct (stdin w) as [|line rest]; [congruence|].
  cbv zeta in Hc. rewrite Hc. clear Hc. intros Hrun.
  exists line, rest. split; [reflexivity|]. cbv zeta.
  destruct (String.eqb_spec (PyStr.strip line) "1") as [E1|N1].
  { injection Hrun as <- <-. left. rewrite E1.
    split; [simpl; intuition discriminate | now split]. }
  destruct (String.eqb_spec (PyStr.strip line) "2") as [E2|N2].
  { injection Hrun as <- <-. right; left. now repeat split. }
  destruct (String.eqb_spec (PyStr.strip line) "3") as [E3|N3].
  { right; right; left. split; [exact E3|].
    destruct (menu_add_user s _) as [s' w2|e]; [|discriminate].
    injection Hrun as <- <-. now exists s'. }
  destruct (String.eqb_spec (PyStr.strip line) "4") as [E4|N4].
  { injection Hrun as <- <-. left. rewrite E4.
    split; [simpl; intuition discriminate | now split]. }
  destruct (String.eqb_spec (PyStr.strip line) "5") as [E5|N5].
  { right; right; right; left. split; [exact E5|].
    destruct (menu_save s _) as [s' w2|e] eqn:Es; [|discriminate].
    injection Hrun as <- <-.
    destruct (menu_save_inv _ _ _ _ Es) as (fn & rest' & path & _ & _ & -> & _).
    now split. }
  destruct (String.eqb_spec (PyStr.strip line) "6") as [E6|N6].
  { injection Hrun as <- <-. right; right; right; right; left.
    now repeat split. }
  destruct (String.eqb_spec (PyStr.strip line) "7") as [E7|N7].
  { injection Hrun as <- <-. left. rewrite E7.
    split; [simpl; intuition discriminate | now split]. }
  destruct (String.eqb_spec (PyStr.strip line) "8") as [E8|N8].
  { injection Hrun as <- <-. right; right; right; right; right.
    now repeat split. }
  injection Hrun as <- <-. left.
  split; [simpl; intuition congruence | now split].
Qed.




(** X13. A menu turn that comes back has read at least one line of the
    console and at most five (the choice and the four answers of an add),
    from the front and in order; it never gives back an identity already
    handed out. *)
Theorem menu_turn_reads_lines
    (s : Session) (w w' : World) (r : option Session) :
  menu_turn s w = Ok r w' ->
  exists consumed,
    stdin w = consumed ++ stdin w'
    /\ 1 <= List.length consumed <= 5
    /\ next_oid w <= next_oid w'.
Proof.
  intros Hrun. apply menu_turn_inv in Hrun.
  destruct Hrun as (line & rest & Hin & Hcase). cbv zeta in Hcase.
  rewrite Hin.
  destruct Hcase as [(_ & _ & ->) | [(_ & _ & ->) | [(_ & s' & _ & Hadd)
    | [(_ & _ & Hsave) | [(_ & _ & ->) | (_ & _ & ->)]]]]];
    try (exists [line]; simpl; split; [reflexivity | lia]).
  - apply menu_add_user_inv in Hadd. simpl in Hadd.
    destruct Hadd as [(n & rest' & -> & _ & _ & ->)
                     | (n & d & r0 & c & rest' & -> & _ & _ & ->)].
    + exists [line; n]. simpl. split; [reflexivity | lia].
    + exists [line; n; d; r0; c]. simpl. split; [reflexivity | lia].
  - apply menu_save_inv in Hsave. simpl in Hsave.
    destruct Hsave as (fn & rest' & path & -> & _ & _ & ->).
    exists [line; fn]. simpl. split; [reflexivity | lia].
Qed.

Lemma menu_turn_reads_lines_witness :
  exists consumed,
    ["3"; "Ivy"; "HR"; "Manager"; "High"; "8"] = consumed ++ ["8"]
    /\ 1 <= List.length consumed <= 5.
Proof.
  destruct (menu_turn_reads_lines
              demo_session
              (mkWorld ["3"; "Ivy"; "HR"; "Manager"; "High"; "8"] 8 demo_fs)
              (mkWorld ["8"] 9 demo_fs) _ eq_refl)
    as (consumed & Heq & Hlen & _).
  exists consumed. split; [exact Heq | exact Hlen].
Defined.



Lemma main_setup_ok w :
  exists s,
    main_setup w = Ok s (mkWorld (stdin w) (8 + next_oid w) (files w))
    /\ session_ok s (mkWorld (stdin w) (8 + next_oid w) (files w))
    /\ s_next_uid s = 9%Z.
Proof.
  eexists. split; [reflexivity|]. split; [|reflexivity].
  unfold session_ok. simpl s_users. simpl s_next_uid. simpl next_oid.
  split; [reflexivity|]. split; [reflexivity|].
  split; [|split; [|split]].
  - intros u Hu. simpl in Hu.
    repeat (destruct Hu as [<- | Hu]; [simpl; lia|]). contradiction.
  - simpl. repeat constructor; simpl; intuition discriminate.
  - intros u Hu. simpl in Hu.
    repeat (destruct Hu as [<- | Hu]; [simpl; lia|]). contradiction.
  - simpl. repeat constructor; simpl; intuition lia.
Qed.


Lemma session_ok_add s w n d r c :
  session_ok s w ->
  let u := User_init (next_oid w) (s_next_uid s) n d r c in
  let groups' := defaultdict_append (attr_tuple u) u (s_groups s) in
  forall rest fs,
    session_ok (mkSession (s_users s ++ [u]) groups'
                          (assign_permissions groups') (s_next_uid s + 1))
               (mkWorld rest (S (next_oid w)) fs).
Proof.
  intros (Hg & _ & Huid & Hnd & Hoid & Hndo) u groups' rest fs.
  unfold session_ok. simpl.
  split; [unfold groups'; now rewrite Hg, build_classes_snoc|].
  split; [reflexivity|]. split; [|split; [|split]].
  - intros v Hv. apply in_app_or in Hv. destruct Hv as [Hv | [<- | []]].
    + specialize (Huid v Hv). lia.
    + simpl. lia.
  - rewrite map_app. apply NoDup_snoc; [exact Hnd|]. simpl.
    intros Hin. apply in_map_iff in Hin. destruct Hin as [v [Heq Hv]].
    specialize (Huid v Hv). lia.
  - intros v Hv. apply in_app_or in Hv. destruct Hv as [Hv | [<- | []]].
    + specialize (Hoid v Hv). lia.
    + simpl. lia.
  - rewrite map_app. apply NoDup_snoc; [exact Hndo|]. simpl.
    intros Hin. apply in_map_iff in Hin. destruct Hin as [v [Heq Hv]].
    specialize (Hoid v Hv). lia.
Qed.

Lemma session_ok_recompute s w : session_ok s w -> menu_recompute s = s.
Proof.
  intros (Hg & Hp & _). unfold menu_recompute. destruct s as [us g p nu].
  simpl in *. subst g. now subst p.
Qed.

Lemma session_ok_show s w :
  session_ok s w -> fst (menu_show_groups s) = s.
Proof.
  intros (_ & Hp & _). unfold menu_show_groups. destruct s as [us g p nu].
  simpl in *. now subst p.
Qed.

Lemma menu_turn_session_ok s s' w w' :
  session_ok s w ->
  menu_turn s w = Ok (Some s') w' ->
  session_ok s' w'.
Proof.
  intros Hok Hrun. apply menu_turn_inv in Hrun.
  destruct Hrun as (line & rest & Hin & Hcase). cbv zeta in Hcase.
  destruct Hcase as [(_ & [= ->] & ->) | [(_ & [= ->] & ->)
    | [(_ & s1 & [= ->] & Hadd)
    | [(_ & [= ->] & Hsave) | [(_ & [= ->] & ->) | (_ & Hr & _)]]]]];
    try discriminate.
  - exact Hok.
  - change (session_ok (fst (menu_show_groups s))
                       (mkWorld rest (next_oid w) (files w))).
    now rewrite (session_ok_show _ _ Hok).
  - apply menu_add_user_inv in Hadd. simpl in Hadd.
    destruct Hadd as [(n & rest' & _ & _ & -> & ->)
                     | (n & d & r0 & c & rest' & _ & _ & -> & ->)].
    + exact Hok.
    + now apply session_ok_add.
  - apply menu_save_inv in Hsave. simpl in Hsave.
    destruct Hsave as (fn & rest' & path & _ & _ & _ & ->). exact Hok.
  - change (session_ok (menu_recompute s)
                       (mkWorld rest (next_oid w) (files w))).
    now rewrite (session_ok_recompute _ _ Hok).
Qed.

Lemma demo_session_ok : session_ok demo_session demo_world.
Proof.
  destruct (main_setup_ok (world0 [])) as (s & Hrun & Hok & _).
  unfold demo_session, demo_world. rewrite Hrun. exact Hok.
Qed.

(** X15. The menu loop keeps the session consistent.  From a session
    whose grouping and permissions are those of its user list, whose ids
    are pairwise different and below the next id and whose users are
    different objects, any number of turns, whatever the choices and
    answers, leads to a session of which the same holds; and the session
    [main] sets up is such a session, so every session [main] reaches
    is. *)
Theorem menu_loop_keeps_session_ok
    (n : nat) (s s' : Session) (w w' : World) :
  (session_ok s w ->
   menu_turns n s w = Ok (Some s') w' ->
   session_ok s' w')
  /\ ((s0 <- main_setup ;; menu_turns n s0) w = Ok (Some s') w' ->
      session_ok s' w').
Proof.
  assert (Hloop : forall m t v,
            session_ok t v -> menu_turns m t v = Ok (Some s') w' ->
            session_ok s' w').
  { induction m as [|m IH]; intros t v Hok; simpl.
    - now intros [= <- <-].
    - unfold bind.
      destruct (menu_turn t v) as [r v1|e] eqn:E; [|discriminate].
      destruct r as [t1|]; [|discriminate].
      apply IH. now apply (menu_turn_session_ok t t1 v v1). }
  split; [apply Hloop|].
  unfold bind. destruct (main_setup_ok w) as (s0 & -> & Hok & _).
  now apply Hloop.
Qed.

Lemma menu_loop_keeps_session_ok_witness :
  let u := mkUser 8 9 "Ivy" "hr" "manager" "high" in
  let groups' :=
    Dict.alter (fun members => members ++ [u]) ("hr", "manager", "high")
               (s_groups demo_session) in
  session_ok (mkSession (s_users demo_session ++ [u]) groups'
                        (assign_permissions groups') 10)
             (mkWorld [] 9 demo_fs).
Proof.
  cbv zeta.
  destruct (menu_loop_keeps_session_ok
              2 demo_session
              (mkSession
                 (s_users demo_session
                  ++ [mkUser 8 9 "Ivy" "hr" "manager" "high"])
                 (Dict.alter
                    (fun members =>
                       members ++ [mkUser 8 9 "Ivy" "hr" "manager" "high"])
                    ("hr", "manager", "high") (s_groups demo_session))
                 (assign_permissions
                    (Dict.alter
                       (fun members =>
                          members ++ [mkUser 8 9 "Ivy" "hr" "manager" "high"])
                       ("hr", "manager", "high") (s_groups demo_session)))
                 10)
              (mkWorld ["3"; "Ivy"; "HR"; "Manager"; "High"; "1"] 8 demo_fs)
              (mkWorld [] 9 demo_fs)) as [Hfrom _].
  apply Hfrom; [exact demo_session_ok | vm_compute; reflexivity].
Defined.

(** X16. In a consistent session nothing is stale: the recompute of
    choice 6 and the permission refresh of choice 2 give back the very
    session, [check_reflexive] answers true on its user list and grouping,
    and [print_groups] shows no group with "Level ? (not assigned)". *)
Theorem consistent_session_has_nothing_stale (s : Session) (w : World) :
  session_ok s w ->
  menu_recompute s = s
  /\ fst (menu_show_groups s) = s
  /\ check_reflexive (s_users s) (s_groups s) = true
  /\ Forall (fun b => block_perm_text b <> "Level ? (not assigned)")
            (print_groups (s_groups s) (s_perms s)).
Proof.
  intros Hok.
  split; [now apply (session_ok_recompute _ w)|].
  split; [now apply (session_ok_show _ w)|].
  destruct Hok as (Hg & Hp & _). split.
  - rewrite Hg. apply check_reflexive_incl, incl_refl.
  - rewrite Hp. unfold print_groups, Dict.items.
    apply print_groups_inv; [constructor|].
    intros g' k members Hin. simpl.
    assert (Hk : Dict.contains k (s_groups s) = true).
    { apply contains_keys. apply (in_map fst) in Hin. exact Hin. }
    unfold Dict.get_default. rewrite get_assign_permissions, Hk.
    apply tier_of_not_fallback.
Qed.

Lemma consistent_session_has_nothing_stale_witness :
  menu_recompute demo_session = demo_session
  /\ check_reflexive (s_users demo_session) (s_groups demo_session) = true.
Proof.
  destruct (consistent_session_has_nothing_stale
              demo_session demo_world demo_session_ok)
    as (Hre & _ & Hrefl & _).
  split; [exact Hre | exact Hrefl].
Defined.



(** X18. The choice is the line read, trimmed.  A choice other than "2",
    "3", "5", "6" and "8", an unknown one included, reads that one line and
    leaves the session, the files and the later lines as they are; "8"
    ends the loop; "2" changes nothing but the permission mapping, which
    it computes from the grouping; and with no line left the turn fails
    with [EOFError]. *)
Theorem menu_turn_simple_choices
    (s : Session) (line : string) (rest : list string) (o : nat)
    (fs : FileSystem) :
  let w := mkWorld (line :: rest) o fs in
  let w1 := mkWorld rest o fs in
  (~ In (PyStr.strip line) ["2"; "3"; "5"; "6"; "8"] ->
     menu_turn s w = Ok (Some s) w1)
  /\ (PyStr.strip line = "8" -> menu_turn s w = Ok None w1)
  /\ (PyStr.strip line = "2" ->
       menu_turn s w
       = Ok (Some (mkSession (s_users s) (s_groups s)
                             (assign_permissions (s_groups s))
                             (s_next_uid s))) w1)
  /\ menu_turn s (mkWorld [] o fs) = Raise EOFError.
Proof.
  cbv zeta. pose proof (menu_turn_cases s (mkWorld (line :: rest) o fs)) as Hc.
  simpl in Hc. rewrite Hc. clear Hc.
  split; [|split; [|split]].
  - intros Hnot. simpl in Hnot.
    repeat (match goal with
            | |- context [String.eqb ?a ?b] =>
                destruct (String.eqb_spec a b) as [E|_]; try reflexivity;
                try (exfalso; apply Hnot; rewrite E; tauto)
            end).
  - now intros ->.
  - now intros ->.
  - reflexivity.
Qed.

Lemma menu_turn_simple_choices_witness :
  menu_turn demo_session (mkWorld ["  list "; "8"] 8 demo_fs)
  = Ok (Some demo_session) (mkWorld ["8"] 8 demo_fs)
  /\ menu_turn demo_session (mkWorld [" 8 "] 8 demo_fs)
     = Ok None (mkWorld [] 8 demo_fs).
Proof.
  split.
  - destruct (menu_turn_simple_choices demo_session "  list " ["8"] 8 demo_fs)
      as (Hkeep & _).
    apply Hkeep. vm_compute.
    intros [E | [E | [E | [E | [E | []]]]]]; discriminate E.
  - destruct (menu_turn_simple_choices demo_session " 8 " [] 8 demo_fs)
      as (_ & Hexit & _).
    apply Hexit. reflexivity.
Defined.



(** ** Size and growth of the grouping *)

(** X20. There are as many groups as there are different keys among the
    users, so at most as many as users, and none exactly when there is no
    user. *)
Theorem build_classes_group_count (users : list User) :
  List.length (build_classes users)
  = List.length (nodup Key_eq_dec (map attr_tuple users))
  /\ List.length (build_classes users) <= List.length users
  /\ (build_classes users = [] <-> users = []).
Proof.
  assert (Hlen : List.length (build_classes users)
                 = List.length (Dict.keys (build_classes users)))
    by (unfold Dict.keys; now rewrite length_map).
  split; [|split].
  - rewrite Hlen. apply Permutation_length. apply NoDup_Permutation.
    + apply NoDup_keys_build_classes.
    + apply NoDup_nodup.
    + intros k. rewrite nodup_In. apply keys_build_classes_In.
  - rewrite Hlen, <- (length_map attr_tuple users).
    apply NoDup_incl_length; [apply NoDup_keys_build_classes|].
    intros k Hk. now apply keys_build_classes_In.
  - split; [|now intros ->].
    intros Hnil. destruct users as [|u users]; [reflexivity|]. exfalso.
    assert (Hin : In (attr_tuple u) (Dict.keys (build_classes (u :: users)))).
    { apply keys_build_classes_In. now left. }
    rewrite Hnil in Hin. exact Hin.
Qed.

(** X21. Two users of the list are members of one group exactly when
    their (department, role, clearance) triples are equal. *)
Theorem same_group_iff_same_key (users : list User) (u v : User) :
  In u users -> In v users ->
  ((exists k members, In (k, members) (build_classes users)
                      /\ In u members /\ In v members)
   <-> attr_tuple u = attr_tuple v).
Proof.
  intros Hu Hv. split.
  - intros (k & members & Hin & Hum & Hvm).
    apply entry_build_classes in Hin. destruct Hin as [-> _].
    apply filter_In in Hum, Hvm.
    destruct Hum as [_ Hku], Hvm as [_ Hkv].
    apply has_key_eq in Hku, Hkv. congruence.
  - intros Heq.
    destruct (own_group_build_classes users u Hu) as (members & Hget & Hum).
    exists (attr_tuple u), members. split; [now apply get_In|].
    split; [exact Hum|].
    rewrite get_build_classes in Hget.
    destruct (filter (has_key (attr_tuple u)) users) as [|x l] eqn:E;
      [discriminate|].
    injection Hget as <-. rewrite <- E. apply filter_In.
    split; [exact Hv|]. apply has_key_eq. now symmetry.
Qed.

Lemma same_group_iff_same_key_witness :
  exists k members,
    In (k, members) (build_classes scenario_users)
    /\ In (User_init 0 1 "Ann" "Engineering" "Developer" "High") members
    /\ In (User_init 1 2 "Ben" "engineering " " developer" "HIGH") members.
Proof.
  apply (same_group_iff_same_key scenario_users); simpl; auto.
Defined.

(** X22. Users that come later only extend the grouping: for user lists
    [users] and [more], a group of [build_classes users] is found under the
    same key in [build_classes (users ++ more)] with the same members first
    and the later users of that key after them, and the keys of the first
    grouping open the keys of the second, in the same order. *)
Theorem build_classes_grows (users more : list User) :
  (forall k members,
     Dict.get k (build_classes users) = Some members ->
     Dict.get k (build_classes (users ++ more))
     = Some (members ++ filter (has_key k) more))
  /\ exists new_keys,
       Dict.keys (build_classes (users ++ more))
       = Dict.keys (build_classes users) ++ new_keys.
Proof.
  split.
  - intros k members. rewrite !get_build_classes, filter_app.
    destruct (filter (has_key k) users) as [|x l]; [discriminate|].
    now intros [= <-].
  - induction more as [|v more IH] using rev_ind.
    + exists []. now rewrite !app_nil_r.
    + destruct IH as [new_keys IH].
      rewrite app_assoc, build_classes_snoc, keys_defaultdict_append, IH.
      destruct (Dict.contains _ _).
      * now exists new_keys.
      * exists (new_keys ++ [attr_tuple v]). now rewrite app_assoc.
Qed.

Lemma build_classes_grows_witness :
  let ivy := mkUser 8 9 "Ivy" "hr" "manager" "high" in
  Dict.get ("hr", "manager", "high")
           (build_classes (s_users demo_session ++ [ivy]))
  = Some ([mkUser 3 4 "Diana King" "hr" "manager" "high";
           mkUser 4 5 "Eve Stone" "hr" "manager" "high"] ++ [ivy]).
Proof.
  cbv zeta.
  destruct (build_classes_grows (s_users demo_session)
              [mkUser 8 9 "Ivy" "hr" "manager" "high"]) as [Hget _].
  apply (Hget ("hr", "manager", "high")). reflexivity.
Defined.

(** An export into a directory that is not there ends [main] with the
    error of [open], before the exit is read. *)
Example main_dies_on_unwritable_export :
  main (world0 ["5"; "no_such_dir/out.csv"; "8"]) = Raise OSError.
Proof. vm_compute. reflexivity. Qed.
